(** * ufw-tui: the rule registry and the key-driven session of [ufw_tui.py]

    A shallow embedding of [src/ufw_tui.py]: the [Port] class, the status
    parser [get_ports], the two dialogs and the key dispatch of [main].

    Text is [string]; a character is a code point below 256 and the
    character classes of Python's [re] and [str] are the ones Python has on
    that range.  External effects (commands handed to [subprocess.run],
    prompts and popups) are recorded in a log threaded through the code;
    Python exceptions are explicit results. *)

From Stdlib Require Import String Ascii List ZArith NArith Bool Lia.
From Stdlib Require Import Sorted Permutation.
Import ListNotations.

Local Open Scope string_scope.

(* ================================================================== *)
(** * Characters and Python's character classes *)
(* ================================================================== *)

Module Chars.

Definition code (c : ascii) : N := N_of_ascii c.

Definition between (lo hi : N) (c : ascii) : bool :=
  ((lo <=? code c) && (code c <=? hi))%N.

(** [\s] of [re] on [str] patterns and [str.isspace]: TAB..CR, FS..US,
    space, NEL and the no-break space. *)
Definition is_space (c : ascii) : bool :=
  between 9 13 c || between 28 32 c || between 133 133 c || between 160 160 c.

(** [\d]: the decimal digits. *)
Definition is_digit (c : ascii) : bool := between 48 57 c.

(** [\w]: alphanumeric characters and the underscore. *)
Definition is_word (c : ascii) : bool :=
  between 48 57 c || between 65 90 c || between 95 95 c || between 97 122 c
  || between 170 170 c || between 178 179 c || between 181 181 c
  || between 185 186 c || between 188 190 c || between 192 214 c
  || between 216 246 c || between 248 255 c.

(** The line boundaries of [str.splitlines]: LF, VT, FF, CR, FS, GS, RS
    and NEL. *)
Definition is_linebreak (c : ascii) : bool :=
  between 10 13 c || between 28 30 c || between 133 133 c.

Definition LF : ascii := ascii_of_N 10.
Definition CR : ascii := ascii_of_N 13.

End Chars.

(* ================================================================== *)
(** * The fragment of [re] the program uses *)
(* ================================================================== *)

Module Re.

Inductive cclass := Space | Digit | Word.

Definition in_class (c : cclass) : ascii -> bool :=
  match c with
  | Space => Chars.is_space
  | Digit => Chars.is_digit
  | Word => Chars.is_word
  end.

(** Patterns.  [Many c] is [c*], [Many1 c] is [c+] (both greedy), [Opt r]
    is [r?] (greedy) and [Group n r] is the n-th capturing group; a
    non-capturing group [(?:r)] is [r] itself. *)
Inductive regex :=
| Bol
| Chr (a : ascii)
| Lit (l : string)
| Many (c : cclass)
| Many1 (c : cclass)
| Seq (r1 r2 : regex)
| Alt (r1 r2 : regex)
| Opt (r : regex)
| Group (n : nat) (r : regex).

(** The groups of a match object: [g n] is [match.group(n)], [None] for a
    group that did not take part in the match. *)
Definition groups := nat -> option string.

Definition no_groups : groups := fun _ => None.

Definition set_group (n : nat) (v : string) (g : groups) : groups :=
  fun m => if Nat.eqb m n then Some v else g m.

(** What is left to match: the position, the rest of the subject and the
    groups captured so far. *)
Definition cont := nat -> string -> groups -> option groups.

(** Greedy repetition of a character class: take one more character first,
    give it back when the rest of the pattern fails. *)
Fixpoint many (p : ascii -> bool) (pos : nat) (s : string) (g : groups)
    (k : cont) : option groups :=
  match s with
  | String c s' =>
      if p c then
        match many p (S pos) s' g k with
        | Some m => Some m
        | None => k pos s g
        end
      else k pos s g
  | EmptyString => k pos s g
  end.

Definition many1 (p : ascii -> bool) (pos : nat) (s : string) (g : groups)
    (k : cont) : option groups :=
  match s with
  | String c s' => if p c then many p (S pos) s' g k else None
  | EmptyString => None
  end.

Fixpoint lit (l : string) (pos : nat) (s : string) (g : groups) (k : cont)
    : option groups :=
  match l with
  | EmptyString => k pos s g
  | String a l' =>
      match s with
      | String c s' => if Ascii.eqb a c then lit l' (S pos) s' g k else None
      | EmptyString => None
      end
  end.

(** The backtracking matcher: alternatives in order, the first complete
    match wins. *)
Fixpoint exec (r : regex) (pos : nat) (s : string) (g : groups) (k : cont)
    {struct r} : option groups :=
  match r with
  | Bol => if Nat.eqb pos 0 then k pos s g else None
  | Chr a =>
      match s with
      | String c s' => if Ascii.eqb a c then k (S pos) s' g else None
      | EmptyString => None
      end
  | Lit l => lit l pos s g k
  | Many c => many (in_class c) pos s g k
  | Many1 c => many1 (in_class c) pos s g k
  | Seq r1 r2 => exec r1 pos s g (fun pos' s' g' => exec r2 pos' s' g' k)
  | Alt r1 r2 =>
      match exec r1 pos s g k with
      | Some m => Some m
      | None => exec r2 pos s g k
      end
  | Opt r1 =>
      match exec r1 pos s g k with
      | Some m => Some m
      | None => k pos s g
      end
  | Group n r1 =>
      exec r1 pos s g
        (fun pos' s' g' => k pos' s' (set_group n (substring 0 (pos' - pos) s) g'))
  end.

(** [re.match(pattern, s)]: a match starting at position 0, anywhere to
    end; [None] when there is none. *)
Definition re_match (r : regex) (s : string) : option groups :=
  exec r 0 s no_groups (fun _ _ g => Some g).

Declare Scope re_scope.
Delimit Scope re_scope with re.
Notation "r1 >> r2" := (Seq r1 r2) (at level 61, right associativity) : re_scope.

Fixpoint all_chars (p : ascii -> bool) (w : string) : bool :=
  match w with
  | EmptyString => true
  | String c w' => p c && all_chars p w'
  end.

(** What a pattern can match, read off its syntax: [Matches r pos w g g']
    says that [r] can consume [w] at position [pos], turning the groups
    [g] into [g']. *)
Inductive Matches : regex -> nat -> string -> groups -> groups -> Prop :=
| MBol g : Matches Bol 0 "" g g
| MChr a pos g : Matches (Chr a) pos (String a "") g g
| MLit l pos g : Matches (Lit l) pos l g g
| MMany c pos w g :
    all_chars (in_class c) w = true ->
    Matches (Many c) pos w g g
| MMany1 c pos w g :
    w <> "" ->
    all_chars (in_class c) w = true ->
    Matches (Many1 c) pos w g g
| MSeq r1 r2 pos w1 w2 g g1 g2 :
    Matches r1 pos w1 g g1 ->
    Matches r2 (pos + String.length w1) w2 g1 g2 ->
    Matches (Seq r1 r2) pos (w1 ++ w2) g g2
| MAltL r1 r2 pos w g g' :
    Matches r1 pos w g g' -> Matches (Alt r1 r2) pos w g g'
| MAltR r1 r2 pos w g g' :
    Matches r2 pos w g g' -> Matches (Alt r1 r2) pos w g g'
| MOptSome r pos w g g' :
    Matches r pos w g g' -> Matches (Opt r) pos w g g'
| MOptNone r pos g : Matches (Opt r) pos "" g g
| MGroup n r pos w g g' :
    Matches r pos w g g' ->
    Matches (Group n r) pos w g (set_group n w g').

End Re.

(* ================================================================== *)
(** * The pieces of Python's [str] and [list] the program uses *)
(* ================================================================== *)

Module Py.

(** [str.splitlines()]: CR LF counts as one boundary, and a boundary at the
    very end opens no further line.  [after_cr] remembers that the previous
    character was a CR, [cur] is the line being read. *)
Fixpoint splitlines_from (after_cr : bool) (cur : string) (s : string)
    : list string :=
  match s with
  | EmptyString => if String.eqb cur "" then [] else [cur]
  | String c s' =>
      if after_cr && Ascii.eqb c Chars.LF then splitlines_from false cur s'
      else if Chars.is_linebreak c then
        cur :: splitlines_from (Ascii.eqb c Chars.CR) "" s'
      else splitlines_from false (cur ++ String c "") s'
  end.

Definition splitlines (s : string) : list string := splitlines_from false "" s.

Fixpoint lstrip (s : string) : string :=
  match s with
  | String c s' => if Chars.is_space c then lstrip s' else s
  | EmptyString => ""
  end.

Fixpoint rstrip (s : string) : string :=
  match s with
  | EmptyString => ""
  | String c s' =>
      let r := rstrip s' in
      if String.eqb r "" && Chars.is_space c then "" else String c r
  end.

(** [str.strip()] *)
Definition strip (s : string) : string := rstrip (lstrip s).

(** [str.split(sep)] for a one-character separator: every occurrence of
    the separator cuts, so two in a row give an empty piece. *)
Fixpoint split (sep : ascii) (s : string) : list string :=
  match s with
  | EmptyString => [""]
  | String c s' =>
      if Ascii.eqb c sep then "" :: split sep s'
      else match split sep s' with
           | t :: ts => String c t :: ts
           | [] => [String c ""]
           end
  end.

(** The position [l[i]] and [l.pop(i)] address: a negative index counts
    from the end, anything else outside the list is an [IndexError]. *)
Definition index_of {A} (l : list A) (i : Z) : option nat :=
  let n := Z.of_nat (List.length l) in
  if (0 <=? i)%Z && (i <? n)%Z then Some (Z.to_nat i)
  else if (- n <=? i)%Z && (i <? 0)%Z then Some (Z.to_nat (i + n))
  else None.

Fixpoint remove_at {A} (n : nat) (l : list A) : list A :=
  match l, n with
  | [], _ => []
  | _ :: l', O => l'
  | x :: l', S n' => x :: remove_at n' l'
  end.

Fixpoint replace_at {A} (n : nat) (y : A) (l : list A) : list A :=
  match l, n with
  | [], _ => []
  | _ :: l', O => y :: l'
  | x :: l', S n' => x :: replace_at n' y l'
  end.

(** [list.sort(key=...)] on string keys: stable, ascending, strings
    compared code point by code point.  The result of a stable sort is
    determined by its input, so insertion stands for Python's merge:
    an element goes in front of the first one whose key is not smaller. *)
Section Sort.
Context {A : Type} (key : A -> string).

Fixpoint insert (x : A) (l : list A) : list A :=
  match l with
  | [] => [x]
  | y :: l' =>
      if String.leb (key x) (key y) then x :: y :: l'
      else y :: insert x l'
  end.

Fixpoint sort (l : list A) : list A :=
  match l with
  | [] => []
  | x :: l' => insert x (sort l')
  end.
End Sort.

End Py.

(* ================================================================== *)
(** * Effects: the log of external actions, and exceptions *)
(* ================================================================== *)

Inductive exn :=
| ValueError (msg : string)
| IndexError.

(** What the program does to the outside: a command line handed to
    [subprocess.run], the input prompt, a message popup. *)
Inductive event :=
| Run (argv : list string)
| Prompt (text : string)
| Popup (header : option string) (message : string).

Inductive result (A : Type) :=
| Ok (a : A) (log : list event)
| Raise (e : exn) (log : list event).
Arguments Ok {A} a log.
Arguments Raise {A} e log.

(** A computation extends the log and returns a value or raises. *)
Definition M (A : Type) := list event -> result A.

Definition ret {A} (a : A) : M A := fun log => Ok a log.

Definition bind {A B} (m : M A) (f : A -> M B) : M B :=
  fun log =>
    match m log with
    | Ok a log' => f a log'
    | Raise e log' => Raise e log'
    end.

Definition raise {A} (e : exn) : M A := fun log => Raise e log.

Definition emit (ev : event) : M unit := fun log => Ok tt (log ++ [ev]).

Declare Scope m_scope.
Delimit Scope m_scope with m.
Notation "x <- m ;; k" := (bind m (fun x => k))
  (at level 62, m at next level, right associativity) : m_scope.
Notation "m ;; k" := (bind m (fun _ => k))
  (at level 62, right associativity) : m_scope.
Local Open Scope m_scope.

(** [subprocess.run(argv)]; the outcome of the command is not looked at. *)
Definition subprocess_run (argv : list string) : M unit := emit (Run argv).

(** [show_popup(stdscr, message, header)]: draws, waits for a key. *)
Definition show_popup (message : string) (header : option string) : M unit :=
  emit (Popup header message).

(** [input_window(stdscr, prompt)]: [typed] is what the operator entered
    before the end-of-line key; the result is stripped. *)
Definition input_window (prompt : string) (typed : string) : M string :=
  emit (Prompt prompt) ;; ret (Py.strip typed).

(* ================================================================== *)
(** * class Port *)
(* ================================================================== *)

Record Port := mkPort {
  port_num : string;
  allowed : bool;
  protocol : string
}.

Definition set_allowed (b : bool) (p : Port) : Port :=
  mkPort (port_num p) b (protocol p).

Definition str_port (self : Port) : M string :=
  if String.eqb (protocol self) "any" then ret (port_num self)
  else if String.eqb (protocol self) "tcp" || String.eqb (protocol self) "udp"
  then ret (port_num self ++ "/" ++ protocol self)
  else raise (ValueError ("Invalid protocol: " ++ protocol self)).

(** The methods return the object as they leave it. *)
Definition allow (self : Port) : M Port :=
  s <- str_port self ;;
  subprocess_run ["sudo"; "ufw"; "allow"; s] ;;
  ret (set_allowed true self).

Definition deny (self : Port) : M Port :=
  s <- str_port self ;;
  subprocess_run ["sudo"; "ufw"; "deny"; s] ;;
  ret (set_allowed false self).

Definition delete (self : Port) : M unit :=
  s <- str_port self ;;
  subprocess_run
    ["sudo"; "ufw"; "delete"; if allowed self then "allow" else "deny"; s].

Definition toggle (self : Port) : M Port :=
  if allowed self then deny self else allow self.

Definition str_allowed (self : Port) : string :=
  if allowed self then "ALLOWED" else "DENIED".

(* ================================================================== *)
(** * get_ports *)
(* ================================================================== *)

Import Re.
Local Open Scope re_scope.

Definition lbracket : ascii := "["%char.
Definition rbracket : ascii := "]"%char.

(** [^\[\s*(\d+)\]] *)
Definition numbered_re : regex :=
  Bol >> Chr lbracket >> Many Space >> Group 1 (Many1 Digit) >> Chr rbracket.

(** [^\[\s*\d+\]\s+(\w+)(?:/(tcp|udp))?\s+(ALLOW|DENY)] *)
Definition port_line_re : regex :=
  Bol >> Chr lbracket >> Many Space >> Many1 Digit >> Chr rbracket
  >> Many1 Space >> Group 1 (Many1 Word)
  >> Opt (Chr "/"%char >> Group 2 (Alt (Lit "tcp") (Lit "udp")))
  >> Many1 Space >> Group 3 (Alt (Lit "ALLOW") (Lit "DENY")).

Definition is_some {A} (o : option A) : bool :=
  match o with Some _ => true | None => false end.

(** A group that took part in the match, as the [str] it is. *)
Definition str_of (o : option string) : string :=
  match o with Some v => v | None => "" end.

Definition eq_str (o : option string) (v : string) : bool :=
  match o with Some w => String.eqb w v | None => false end.

(** [Port(port_num, allowed, protocol)] from the groups of a status line. *)
Definition line_port (m : groups) : Port :=
  let port_num := str_of (m 1) in
  let protocol := match m 2 with None => "any" | Some v => v end in
  let allowed := eq_str (m 3) "ALLOW" in
  mkPort port_num allowed protocol.

(** The body of the [for line in port_line_lst] loop. *)
Definition port_of_line (line : string) : M Port :=
  match re_match port_line_re line with
  | None => raise (ValueError ("Invalid line: " ++ line))
  | Some m => ret (line_port m)
  end.

Fixpoint ports_of_lines (lines : list string) (port_lst : list Port)
    : M (list Port) :=
  match lines with
  | [] => ret port_lst
  | line :: rest =>
      p <- port_of_line line ;;
      ports_of_lines rest (port_lst ++ [p])
  end.

(** [get_ports()]; [stdout] is what [ufw status numbered] printed. *)
Definition get_ports (stdout : string) : M (list Port) :=
  subprocess_run ["sudo"; "ufw"; "status"; "numbered"] ;;
  let lines := Py.splitlines stdout in
  let port_line_lst :=
    filter (fun line => is_some (re_match numbered_re line)) lines in
  if negb (Nat.eqb (List.length port_line_lst mod 2) 0) then
    raise (ValueError "The amount of ports are not diviced by 2")
  else
    let port_line_lst := firstn (List.length port_line_lst / 2) port_line_lst in
    port_lst <- ports_of_lines port_line_lst [] ;;
    ret (Py.sort port_num port_lst).

(* ================================================================== *)
(** * main: the session *)
(* ================================================================== *)

(** The two variables of [main] the key handlers share. *)
Record session := mkSession {
  port_lst : list Port;
  current_index : Z
}.

(** The scroll window of [main]: [(start_index, end_index)] from the
    selected row, [len(port_lst)] and [visible_height = max_y - 2]. *)
Definition viewport (current_index len visible_height : Z) : Z * Z :=
  let start_index :=
    if (current_index >=? visible_height)%Z
    then Z.max 0 (current_index - visible_height + 1)
    else 0%Z in
  let end_index := Z.min len (start_index + visible_height) in
  (start_index, end_index).

(** The values [getch] returns for the keys [main] looks at. *)
Module Key.
Definition q : Z := 113.
Definition space : Z := 32.
Definition a : Z := 97.
Definition d : Z := 100.
Definition h : Z := 104.
Definition KEY_DOWN : Z := 258.
Definition KEY_UP : Z := 259.
End Key.

(** [(!)?(\w+)(?:/(tcp|udp))?] *)
Definition token_re : regex :=
  Opt (Group 1 (Chr "!"%char)) >> Group 2 (Many1 Word)
  >> Opt (Chr "/"%char >> Group 3 (Alt (Lit "tcp") (Lit "udp"))).

(** [x or dflt] for an optional string: [None] and the empty string are
    the false ones. *)
Definition or_else (o : option string) (dflt : string) : string :=
  match o with
  | Some v => if String.eqb v "" then dflt else v
  | None => dflt
  end.

(** [l[i]] *)
Definition getitem {A} (l : list A) (i : Z) : M A :=
  match Py.index_of l i with
  | Some n =>
      match nth_error l n with
      | Some x => ret x
      | None => raise IndexError
      end
  | None => raise IndexError
  end.

(** [l.pop(i)], the list it leaves *)
Definition pop {A} (l : list A) (i : Z) : M (list A) :=
  match Py.index_of l i with
  | Some n => ret (Py.remove_at n l)
  | None => raise IndexError
  end.

(** [l[i].toggle()]: the object at [i] is changed in place. *)
Definition toggle_at (l : list Port) (i : Z) : M (list Port) :=
  match Py.index_of l i with
  | Some n =>
      match nth_error l n with
      | Some p => p' <- toggle p ;; ret (Py.replace_at n p' l)
      | None => raise IndexError
      end
  | None => raise IndexError
  end.

(** [Port(port_num=match.group(2), allowed=match.group(1) != '!',
    protocol=match.group(3) or 'any')] *)
Definition token_port (m : groups) : Port :=
  mkPort (str_of (m 2)) (negb (eq_str (m 1) "!")) (or_else (m 3) "any").

(** The body of the [for port_input in user_input_lst] loop. *)
Definition add_port (port_input : string) (port_lst : list Port)
    : M (list Port) :=
  match re_match token_re port_input with
  | None => show_popup ("Invalid port: " ++ port_input) None ;; ret port_lst
  | Some m =>
      let port := token_port m in
      if existsb (String.eqb (port_num port)) (map port_num port_lst) then
        show_popup ("Port " ++ port_num port ++ " already exists") None ;;
        ret port_lst
      else
        port' <- (if allowed port then allow port else deny port) ;;
        ret (port_lst ++ [port'])%list
  end.

Fixpoint add_ports (user_input_lst : list string) (port_lst : list Port)
    : M (list Port) :=
  match user_input_lst with
  | [] => ret port_lst
  | port_input :: rest =>
      port_lst' <- add_port port_input port_lst ;;
      add_ports rest port_lst'
  end.

Definition nl : string := String Chars.LF "".

(** The help text.  Its two arrows lie outside the modelled range; the
    literal holds the bytes of their encoding. *)
Definition help_message : string :=
  "↑ / ↓  : Navigate" ++ nl ++
  "SPACE  : Toggle selected port" ++ nl ++
  "a      : Add new (allowed) ports" ++ nl ++
  "d      : Delete selected port" ++ nl ++
  "q      : Quit".

Definition add_prompt : string :=
  "Add new ports (spaces in between, `!` for denied): ".

Inductive control := Next | Break.

(** One turn of [while True] from [getch] on: [key_input] is the key,
    [typed] what the operator enters should the input prompt open. *)
Definition step (key_input : Z) (typed : string) (s : session)
    : M (control * session) :=
  let port_lst := port_lst s in
  let current_index := current_index s in
  let len := Z.of_nat (List.length port_lst) in
  if (key_input =? Key.q)%Z then ret (Break, s)
  else if (key_input =? Key.KEY_UP)%Z && (current_index >? 0)%Z then
    ret (Next, mkSession port_lst (current_index - 1))
  else if (key_input =? Key.KEY_DOWN)%Z && (current_index <? len - 1)%Z then
    ret (Next, mkSession port_lst (current_index + 1))
  else if (key_input =? Key.space)%Z then
    match port_lst with
    | [] => show_popup "No ports to toggle" (Some "Error") ;; ret (Next, s)
    | _ :: _ =>
        port_lst' <- toggle_at port_lst current_index ;;
        ret (Next, mkSession port_lst' current_index)
    end
  else if (key_input =? Key.a)%Z then
    user_input <- input_window add_prompt typed ;;
    if String.eqb user_input "" then ret (Next, s)
    else
      port_lst' <- add_ports (Py.split " "%char user_input) port_lst ;;
      ret (Next, mkSession port_lst' current_index)
  else if (key_input =? Key.d)%Z then
    p <- getitem port_lst current_index ;;
    delete p ;;
    port_lst' <- pop port_lst current_index ;;
    let len' := Z.of_nat (List.length port_lst') in
    let current_index' :=
      if (current_index >=? len')%Z then (len' - 1)%Z else current_index in
    ret (Next, mkSession port_lst' current_index')
  else if (key_input =? Key.h)%Z then
    show_popup help_message (Some "Help") ;; ret (Next, s)
  else ret (Next, s).

(** The loop over the keys pressed, each with the text for the prompt;
    it ends at the quit key, at an exception, or waits for the next key
    when the list is used up. *)
Fixpoint loop (inputs : list (Z * string)) (s : session)
    : M (control * session) :=
  match inputs with
  | [] => ret (Next, s)
  | (key_input, typed) :: rest =>
      r <- step key_input typed s ;;
      match r with
      | (Break, s') => ret (Break, s')
      | (Next, s') => loop rest s'
      end
  end.

(** [main]: load the rules, select the first row, enter the loop. *)
Definition main (stdout : string) (inputs : list (Z * string))
    : M (control * session) :=
  port_lst <- get_ports stdout ;;
  loop inputs (mkSession port_lst 0).

(* ================================================================== *)
(** * What is drawn: the list of [main] and the window of [show_popup] *)
(* ================================================================== *)

Inductive attribute := A_NORMAL | A_BOLD | A_REVERSE.

(** A call [win.addstr(y, x, text, attr)]. *)
Inductive drawn := Addstr (y x : Z) (text : string) (attr : attribute).

Fixpoint spaces (n : nat) : string :=
  match n with
  | O => ""
  | S n' => String " "%char (spaces n')
  end.

(** [str.ljust(width)] *)
Definition ljust (width : nat) (s : string) : string :=
  s ++ spaces (width - String.length s).

(** [str.center(width)]: the margin is split in two, and the left half
    takes the odd space when the margin and the width are both odd. *)
Definition center (width : Z) (s : string) : string :=
  let marg := (width - Z.of_nat (String.length s))%Z in
  if (marg <=? 0)%Z then s
  else
    let left := (marg / 2 + (if Z.odd marg && Z.odd width then 1 else 0))%Z in
    spaces (Z.to_nat left) ++ s ++ spaces (Z.to_nat (marg - left)).

(** [s[:stop]]: a negative [stop] counts from the end. *)
Definition slice_to (stop : Z) (s : string) : string :=
  let stop' :=
    if (stop <? 0)%Z then Z.max 0 (stop + Z.of_nat (String.length s)) else stop in
  substring 0 (Z.to_nat stop') s.

Fixpoint range_from (start : Z) (n : nat) : list Z :=
  match n with
  | O => []
  | S n' => start :: range_from (start + 1) n'
  end.

(** [range(start, stop)] *)
Definition range (start stop : Z) : list Z :=
  range_from start (Z.to_nat (stop - start)).

(** The [for visible_idx, actual_idx in enumerate(range(...))] loop of
    [main]; [visible_idx] is the count of [enumerate]. *)
Fixpoint draw_rows (port_lst : list Port) (current_index : Z)
    (visible_idx : Z) (idxs : list Z) : M (list drawn) :=
  match idxs with
  | [] => ret []
  | actual_idx :: rest =>
      port_obj <- getitem port_lst actual_idx ;;
      let attr :=
        if (actual_idx =? current_index)%Z then A_REVERSE else A_NORMAL in
      spec <- str_port port_obj ;;
      let cell :=
        Addstr (visible_idx + 2) 0
               (ljust 15 spec ++ " " ++ str_allowed port_obj) attr in
      cells <- draw_rows port_lst current_index (visible_idx + 1) rest ;;
      ret (cell :: cells)
  end.

Definition dquote : string := String (ascii_of_N 34) "".

Definition banner : string := "UFW Port Manager — h to help, q to quit".

Definition no_ports_message : string :=
  "No ports found (press " ++ dquote ++ "a" ++ dquote ++ " to add ports)".

(** The drawing part of one turn of [while True], up to [getch]; [max_y]
    is the height [getmaxyx] reports.  The dash of the banner lies
    outside the modelled range; the literal holds the bytes of its
    encoding. *)
Definition draw_screen (max_y : Z) (s : session) : M (list drawn) :=
  let header := Addstr 0 0 banner A_BOLD in
  match port_lst s with
  | [] => ret [header; Addstr 2 0 no_ports_message A_NORMAL]
  | _ :: _ =>
      let visible_height := (max_y - 2)%Z in
      let (start_index, end_index) :=
        viewport (current_index s) (Z.of_nat (List.length (port_lst s)))
                 visible_height in
      cells <- draw_rows (port_lst s) (current_index s) 0
                 (range start_index end_index) ;;
      ret (header :: cells)
  end.

(** [if header:] for an optional string *)
Definition truthy (header : option string) : bool :=
  match header with
  | Some h => negb (String.eqb h "")
  | None => false
  end.

(** The [for line in lines] loop of [show_popup]: [limit] is
    [win_h - 2], [width] is [win_w - 4]. *)
Fixpoint popup_body (limit width : Z) (y : Z) (lines : list string)
    : list drawn :=
  match lines with
  | [] => []
  | line :: rest =>
      if (y >=? limit)%Z then []
      else Addstr y 2 (slice_to width line) A_NORMAL
           :: popup_body limit width (y + 1) rest
  end.

Definition popup_footer : string := "Press any key to continue...".

(** What [show_popup] draws into its window, with the height [win_h] of
    the window.  [win_w] stands for [int(w * width_ratio)], a product of
    floats taken as given. *)
Definition popup_window (win_w : Z) (message : string) (header : option string)
    (padding : Z) : Z * list drawn :=
  let lines := Py.split Chars.LF (Py.strip message) in
  let line_count := Z.of_nat (List.length lines) in
  let extra_lines := if truthy header then 3%Z else 2%Z in
  let win_h := (line_count + extra_lines + padding)%Z in
  let head :=
    if truthy header
    then [Addstr 1 2 (center (win_w - 4) (str_of header)) A_BOLD]
    else [] in
  let y := if truthy header then 3%Z else 1%Z in
  (win_h,
   (head ++ popup_body (win_h - 2) (win_w - 4) y lines
    ++ [Addstr (win_h - 1) 2 popup_footer A_NORMAL])%list).

(** Where [show_popup] puts its window on a screen of [h] by [w]:
    [(win_y, win_x)]. *)
Definition popup_origin (h w win_h win_w : Z) : Z * Z :=
  (Z.max 0 ((h - win_h) / 2), Z.max 0 ((w - win_w) / 2)).

(* ================================================================== *)
(** * Vocabulary of the statements *)
(* ================================================================== *)

(** The lines of the status text that start with a sequence number. *)
Definition numbered_lines (stdout : string) : list string :=
  filter (fun line => is_some (re_match numbered_re line)) (Py.splitlines stdout).

Definition status_command : event := Run ["sudo"; "ufw"; "status"; "numbered"].

Definition valid_protocol (proto : string) : Prop :=
  proto = "any" \/ proto = "tcp" \/ proto = "udp".

Definition suffix_of (proto : string) : string :=
  if String.eqb proto "any" then "" else "/" ++ proto.

Definition action_of (allowed : bool) : string :=
  if allowed then "ALLOW" else "DENY".

(** A rule read off a status line as text: the line is a bracketed
    number, blanks, the port token, [/tcp] or [/udp] unless the protocol
    is [any], blanks, the action word of the flag, and whatever follows. *)
Definition describes (line : string) (p : Port) : Prop :=
  exists sp1 ds sp2 sp3 rest,
    line = "[" ++ sp1 ++ ds ++ "]" ++ sp2 ++ port_num p
           ++ suffix_of (protocol p) ++ sp3 ++ action_of (allowed p) ++ rest
    /\ all_chars Chars.is_space sp1 = true
    /\ ds <> "" /\ all_chars Chars.is_digit ds = true
    /\ sp2 <> "" /\ all_chars Chars.is_space sp2 = true
    /\ port_num p <> "" /\ all_chars Chars.is_word (port_num p) = true
    /\ valid_protocol (protocol p)
    /\ sp3 <> "" /\ all_chars Chars.is_space sp3 = true.

(** A numbered line as text: a bracket, blanks, digits, a bracket. *)
Definition numbered (line : string) : Prop :=
  exists sp ds rest,
    line = "[" ++ sp ++ ds ++ "]" ++ rest
    /\ all_chars Chars.is_space sp = true
    /\ ds <> "" /\ all_chars Chars.is_digit ds = true.

(** [stops p r]: a run of [p]-characters cannot go on into [r]. *)
Definition stops (p : ascii -> bool) (r : string) : Prop :=
  match r with
  | EmptyString => True
  | String c _ => p c = false
  end.

(** Ascending order by a string key, strings compared code point by code
    point; for two rules, by port token. *)
Definition key_le {A} (key : A -> string) (x y : A) : Prop :=
  String.leb (key x) (key y) = true.

Definition port_le : Port -> Port -> Prop := key_le port_num.

(** The add-ports grammar taken for the whole token: an optional [!], a
    port token, and nothing or [/tcp] or [/udp] after it. *)
Definition whole_token (tok : string) : Prop :=
  exists bang port suffix,
    tok = bang ++ port ++ suffix
    /\ (bang = "" \/ bang = "!")
    /\ port <> "" /\ all_chars Chars.is_word port = true
    /\ (suffix = "" \/ suffix = "/tcp" \/ suffix = "/udp").

(** The exception of the parity check of [get_ports]. *)
Definition parity_error : exn :=
  ValueError "The amount of ports are not diviced by 2".

Definition valid_port (p : Port) : Prop := valid_protocol (protocol p).

(** What the steps of a session keep true: every rule has one of the
    three protocols, and the cursor is a row of the list or, at the least,
    -1, where an emptied list leaves it. *)
Definition well_formed (s : session) : Prop :=
  Forall valid_port (port_lst s)
  /\ (-1 <= current_index s)%Z
  /\ (current_index s <= Z.max 0 (Z.of_nat (List.length (port_lst s)) - 1))%Z.

(** The command line of [allow()] or [deny()] for a spec. *)
Definition mutation (allowed : bool) (spec : string) : event :=
  Run ["sudo"; "ufw"; if allowed then "allow" else "deny"; spec].

(** Three status texts: no rule, one rule and two rules in their two
    address families. *)
Definition two_rules : string :=
  "Status: active" ++ nl ++
  "[ 1] 80/tcp   DENY IN" ++ nl ++
  "[ 2] 22 ALLOW IN" ++ nl ++
  "[ 3] 80/tcp (v6) DENY IN" ++ nl ++
  "[ 4] 22 (v6) ALLOW IN".

Definition inactive : string := "Status: inactive".

Definition one_rule : string :=
  "[ 1] 22                         ALLOW IN    Anywhere" ++ nl ++
  "[ 2] 22 (v6)                    ALLOW IN    Anywhere (v6)".

(** [settles r pos w s' g g']: on [w ++ s'] at [pos] the matcher reads
    exactly [w] by [r], with the groups [g'], whenever what follows the
    pattern succeeds there. *)
Definition settles (r : regex) (pos : nat) (w s' : string) (g g' : groups)
    : Prop :=
  forall k,
    k (pos + String.length w) s' g' <> None ->
    exec r pos (w ++ s') g k = k (pos + String.length w) s' g'.

(** A token the add pattern accepts, by its first characters: a word
    character, or [!] and a word character. *)
Definition starts_token (tok : string) : bool :=
  match tok with
  | EmptyString => false
  | String c rest =>
      Chars.is_word c
      || (Ascii.eqb c "!"%char
          && match rest with
             | String d _ => Chars.is_word d
             | EmptyString => false
             end)
  end.

(** The mark of a denied token. *)
Definition bang_of (denied : bool) : string := if denied then "!" else "".

(** The commands among the events of a log. *)
Definition is_run (ev : event) : bool :=
  match ev with Run _ => true | _ => false end.

Definition commands (log : list event) : list event := filter is_run log.

(** What [str_port] renders for a rule of one of the three protocols. *)
Definition rendered (p : Port) : string :=
  port_num p ++ suffix_of (protocol p).

(** The command line of [delete()] for a rule. *)
Definition deletion (p : Port) : event :=
  Run ["sudo"; "ufw"; "delete"; if allowed p then "allow" else "deny"; rendered p].

(** A rule as both parsers build it: a port token of word characters and
    one of the three protocols. *)
Definition plain_port (p : Port) : Prop :=
  port_num p <> ""
  /\ all_chars Chars.is_word (port_num p) = true
  /\ valid_protocol (protocol p).

(** The command a token that adds the rule [p] runs. *)
Definition command_of (p : Port) : event := mutation (allowed p) (rendered p).

(** The text of the row of a rule: the spec in a column of 15, the state. *)
Definition row_text (p : Port) : string :=
  ljust 15 (rendered p) ++ " " ++ str_allowed p.

(** The row [main] draws for the rule at [start + k] of the list, [k]
    rows down from the first. *)
Definition row_cell (port_lst : list Port) (current_index start v : Z) (k : nat)
    : option drawn :=
  match nth_error port_lst (Z.to_nat (start + Z.of_nat k)) with
  | Some p =>
      Some (Addstr (v + Z.of_nat k + 2) 0 (row_text p)
              (if (start + Z.of_nat k =? current_index)%Z
               then A_REVERSE else A_NORMAL))
  | None => None
  end.

Definition attr_of (c : drawn) : attribute :=
  match c with Addstr _ _ _ a => a end.

Definition row_of (c : drawn) : Z :=
  match c with Addstr y _ _ _ => y end.

(** The rows of a popup for all of [lines], from line [y] down. *)
Fixpoint all_rows (width : Z) (y : Z) (lines : list string) : list drawn :=
  match lines with
  | [] => []
  | line :: rest =>
      Addstr y 2 (slice_to width line) A_NORMAL :: all_rows width (y + 1) rest
  end.

(** The states of a session: what [main] starts the loop with, and what
    a key press that keeps the loop going leads to. *)
Inductive reachable : session -> Prop :=
| reach_init stdout log port_lst log' :
    get_ports stdout log = Ok port_lst log' ->
    reachable (mkSession port_lst 0)
| reach_step s key_input typed log s' log' :
    reachable s ->
    step key_input typed s log = Ok (Next, s') log' ->
    reachable s'.

(* ================================================================== *)
(** * Strings *)
(* ================================================================== *)

Ltac inv H := inversion H; subst; clear H.

Lemma append_nil_r (s : string) : s ++ "" = s.
Proof. induction s as [|c s IH]; simpl; [reflexivity | now rewrite IH]. Qed.

Lemma append_assoc (a b c : string) : (a ++ b) ++ c = a ++ b ++ c.
Proof. induction a as [|x a IH]; simpl; [reflexivity | now rewrite IH]. Qed.

Lemma length_append (a b : string) :
  String.length (a ++ b) = String.length a + String.length b.
Proof. induction a as [|x a IH]; simpl; [reflexivity | now rewrite IH]. Qed.

Lemma substring_whole_prefix (w s : string) :
  substring 0 (String.length w) (w ++ s) = w.
Proof.
  induction w as [|c w IH]; simpl.
  - now destruct s.
  - now rewrite IH.
Qed.

Lemma all_chars_app p (a b : string) :
  all_chars p (a ++ b) = all_chars p a && all_chars p b.
Proof.
  induction a as [|c a IH]; simpl; [reflexivity|].
  now rewrite IH, andb_assoc.
Qed.

(* ================================================================== *)
(** * The matcher finds only what the pattern allows *)
(* ================================================================== *)

Module ReFacts.
Import Re.

Lemma many_sound p s : forall pos g k m,
  many p pos s g k = Some m ->
  exists w s', s = w ++ s' /\ all_chars p w = true
               /\ k (pos + String.length w) s' g = Some m.
Proof.
  induction s as [|c s IH]; intros pos g k m H; simpl in H.
  - exists "", "". simpl. now rewrite Nat.add_0_r.
  - destruct (p c) eqn:Hc.
    + destruct (many p (S pos) s g k) as [m'|] eqn:Hm.
      * inv H. apply IH in Hm as (w & s' & -> & Hw & Hk).
        exists (String c w), s'. simpl. rewrite Hc, Hw.
        now rewrite Nat.add_succ_r.
      * exists "", (String c s). simpl. now rewrite Nat.add_0_r.
    + exists "", (String c s). simpl. now rewrite Nat.add_0_r.
Qed.

Lemma many1_sound p s pos g k m :
  many1 p pos s g k = Some m ->
  exists w s', s = w ++ s' /\ w <> "" /\ all_chars p w = true
               /\ k (pos + String.length w) s' g = Some m.
Proof.
  destruct s as [|c s]; simpl; [discriminate|].
  destruct (p c) eqn:Hc; [|discriminate].
  intros H. apply many_sound in H as (w & s' & -> & Hw & Hk).
  exists (String c w), s'. simpl. rewrite Hc, Hw.
  rewrite Nat.add_succ_r. repeat split; [discriminate | exact Hk].
Qed.

Lemma lit_sound l : forall pos s g k m,
  lit l pos s g k = Some m ->
  exists s', s = l ++ s' /\ k (pos + String.length l) s' g = Some m.
Proof.
  induction l as [|a l IH]; intros pos s g k m H; simpl in H.
  - exists s. simpl. now rewrite Nat.add_0_r.
  - destruct s as [|c s]; [discriminate|].
    destruct (Ascii.eqb a c) eqn:E; [|discriminate].
    apply Ascii.eqb_eq in E as <-.
    apply IH in H as (s' & -> & Hk).
    exists s'. simpl. now rewrite Nat.add_succ_r.
Qed.

(** Whatever [exec] returns comes from a way of reading a prefix of the
    subject by the pattern, followed by a success of what was left to do. *)
Lemma exec_sound r : forall pos s g k m,
  exec r pos s g k = Some m ->
  exists w s' g', s = w ++ s' /\ Matches r pos w g g'
                  /\ k (pos + String.length w) s' g' = Some m.
Proof.
  induction r as [|a|l|c|c|r1 IH1 r2 IH2|r1 IH1 r2 IH2|r1 IH1|n r1 IH1];
    intros pos s g k m H; simpl in H.
  - destruct (Nat.eqb pos 0) eqn:E; [|discriminate].
    apply Nat.eqb_eq in E as ->.
    exists "", s, g. repeat split; [constructor | exact H].
  - destruct s as [|c s]; [discriminate|].
    destruct (Ascii.eqb a c) eqn:E; [|discriminate].
    apply Ascii.eqb_eq in E as <-.
    exists (String a ""), s, g. simpl. rewrite Nat.add_1_r.
    repeat split; [constructor | exact H].
  - apply lit_sound in H as (s' & -> & Hk).
    exists l, s', g. repeat split; [constructor | exact Hk].
  - apply many_sound in H as (w & s' & -> & Hw & Hk).
    exists w, s', g. repeat split; [now constructor | exact Hk].
  - apply many1_sound in H as (w & s' & -> & Hne & Hw & Hk).
    exists w, s', g. repeat split; [now constructor | exact Hk].
  - apply IH1 in H as (w1 & s1 & g1 & -> & M1 & H).
    apply IH2 in H as (w2 & s2 & g2 & -> & M2 & H).
    exists (w1 ++ w2), s2, g2. rewrite append_assoc, length_append, Nat.add_assoc.
    repeat split; [econstructor; eassumption | exact H].
  - destruct (exec r1 pos s g k) as [m'|] eqn:E.
    + inv H. apply IH1 in E as (w & s' & g' & -> & M1 & Hk).
      exists w, s', g'. repeat split; [now apply MAltL | exact Hk].
    + apply IH2 in H as (w & s' & g' & -> & M2 & Hk).
      exists w, s', g'. repeat split; [now apply MAltR | exact Hk].
  - destruct (exec r1 pos s g k) as [m'|] eqn:E.
    + inv H. apply IH1 in E as (w & s' & g' & -> & M1 & Hk).
      exists w, s', g'. repeat split; [now apply MOptSome | exact Hk].
    + exists "", s, g. simpl. rewrite Nat.add_0_r.
      repeat split; [apply MOptNone | exact H].
  - apply IH1 in H as (w & s' & g' & -> & M1 & Hk).
    replace (pos + String.length w - pos) with (String.length w) in Hk by lia.
    rewrite substring_whole_prefix in Hk.
    exists w, s', (set_group n w g'). repeat split; [now constructor | exact Hk].
Qed.

Lemma re_match_sound r s m :
  re_match r s = Some m ->
  exists w s', s = w ++ s' /\ Matches r 0 w no_groups m.
Proof.
  unfold re_match. intros H.
  apply exec_sound in H as (w & s' & g' & -> & M & Hk).
  inv Hk. now exists w, s'.
Qed.

Lemma many_complete p w : forall pos s' g k,
  all_chars p w = true ->
  k (pos + String.length w) s' g <> None ->
  many p pos (w ++ s') g k <> None.
Proof.
  induction w as [|c w IH]; intros pos s' g k Hw Hk; simpl in *.
  - rewrite Nat.add_0_r in Hk. destruct s' as [|c s']; simpl; [exact Hk|].
    destruct (p c); [|exact Hk].
    destruct (many p (S pos) s' g k); [discriminate | exact Hk].
  - apply andb_prop in Hw as [Hc Hw]. rewrite Hc.
    rewrite Nat.add_succ_r in Hk.
    specialize (IH (S pos) s' g k Hw Hk).
    destruct (many p (S pos) (w ++ s') g k); [discriminate | congruence].
Qed.

Lemma lit_complete l : forall pos s' g k,
  k (pos + String.length l) s' g <> None ->
  lit l pos (l ++ s') g k <> None.
Proof.
  induction l as [|a l IH]; intros pos s' g k Hk; simpl in *.
  - now rewrite Nat.add_0_r in Hk.
  - rewrite Ascii.eqb_refl. apply IH. now rewrite Nat.add_succ_r in Hk.
Qed.

(** Whatever the pattern can read is found: when some reading of a prefix
    lets the rest succeed, the matcher does not fail (it may settle on
    another reading, an earlier one in its order). *)
Lemma exec_complete r pos w g g' :
  Matches r pos w g g' ->
  forall s' k g0,
    (forall g1, k (pos + String.length w) s' g1 <> None) ->
    exec r pos (w ++ s') g0 k <> None.
Proof.
  induction 1 as [g|a pos g|l pos g|c pos w g Hw|c pos w g Hne Hw
                 |r1 r2 pos w1 w2 g g1 g2 _ IH1 _ IH2
                 |r1 r2 pos w g g' _ IH|r1 r2 pos w g g' _ IH
                 |r pos w g g' _ IH|r pos g|n r pos w g g' _ IH];
    intros s' k g0 Hk; simpl.
  - apply Hk.
  - rewrite Ascii.eqb_refl. specialize (Hk g0). now rewrite Nat.add_1_r in Hk.
  - apply lit_complete, Hk.
  - apply many_complete; [exact Hw | apply Hk].
  - destruct w as [|x w]; [congruence|]. simpl in *.
    apply andb_prop in Hw as [Hx Hw]. rewrite Hx.
    apply many_complete; [exact Hw|]. specialize (Hk g0).
    now rewrite Nat.add_succ_r in Hk.
  - rewrite append_assoc. apply IH1. intros g3. apply IH2. intros g4.
    specialize (Hk g4). now rewrite length_append, Nat.add_assoc in Hk.
  - specialize (IH s' k g0 Hk).
    destruct (exec r1 pos (w ++ s') g0 k); [discriminate | congruence].
  - destruct (exec r1 pos (w ++ s') g0 k); [discriminate | now apply IH].
  - specialize (IH s' k g0 Hk).
    destruct (exec r pos (w ++ s') g0 k); [discriminate | congruence].
  - destruct (exec r pos s' g0 k); [discriminate|].
    specialize (Hk g0). now rewrite Nat.add_0_r in Hk.
  - apply IH. intros g1. apply Hk.
Qed.

Lemma re_match_complete r w s' g g' :
  Matches r 0 w g g' -> re_match r (w ++ s') <> None.
Proof.
  intros M. unfold re_match. eapply exec_complete; [exact M|]. discriminate.
Qed.

End ReFacts.

(* ================================================================== *)
(** * Character classes and runs of characters *)
(* ================================================================== *)

Module CharFacts.
Import Chars.

Ltac by_cases c := destruct c as [[] [] [] [] [] [] [] []]; vm_compute; congruence.

Lemma word_not_space c : is_word c = true -> is_space c = false.
Proof. by_cases c. Qed.

Lemma space_not_word c : is_space c = true -> is_word c = false.
Proof. by_cases c. Qed.

Lemma digit_not_space c : is_digit c = true -> is_space c = false.
Proof. by_cases c. Qed.

Lemma digit_is_word c : is_digit c = true -> is_word c = true.
Proof. by_cases c. Qed.

(** A run of one class followed by something of a class apart stops. *)
Lemma stops_app p q a r :
  (forall c, q c = true -> p c = false) ->
  a <> "" -> all_chars q a = true -> stops p (a ++ r).
Proof.
  intros Hpq Hne Ha. destruct a as [|c a]; [congruence|]. simpl in *.
  apply andb_prop in Ha as [Hc _]. now apply Hpq.
Qed.

(** A maximal run is determined by the text. *)
Lemma run_unique p a : forall a' r r',
  all_chars p a = true -> all_chars p a' = true ->
  stops p r -> stops p r' ->
  a ++ r = a' ++ r' -> a = a' /\ r = r'.
Proof.
  induction a as [|c a IH]; intros [|c' a'] r r' Ha Ha' Hr Hr' E; simpl in *.
  - auto.
  - subst r. simpl in Hr. apply andb_prop in Ha' as [Hc _]. congruence.
  - subst r'. simpl in Hr'. apply andb_prop in Ha as [Hc _]. congruence.
  - inv E. apply andb_prop in Ha as [_ Ha]. apply andb_prop in Ha' as [_ Ha'].
    destruct (IH a' r r' Ha Ha' Hr Hr' H1) as [-> ->]. auto.
Qed.

End CharFacts.

(* ================================================================== *)
(** * What the three patterns of the program extract *)
(* ================================================================== *)

Module Patterns.
Import Re ReFacts CharFacts.

Ltac inv_matches :=
  repeat match goal with
  | H : Matches (Seq _ _) _ _ _ _ |- _ => inv H
  | H : Matches Bol _ _ _ _ |- _ => inv H
  | H : Matches (Chr _) _ _ _ _ |- _ => inv H
  | H : Matches (Lit _) _ _ _ _ |- _ => inv H
  | H : Matches (Many _) _ _ _ _ |- _ => inv H
  | H : Matches (Many1 _) _ _ _ _ |- _ => inv H
  | H : Matches (Group _ _) _ _ _ _ |- _ => inv H
  | H : Matches (Alt _ _) _ _ _ _ |- _ => inv H
  | H : Matches (Opt _) _ _ _ _ |- _ => inv H
  end.

(** A status line that passes the strict pattern reads as the rule built
    from its groups. *)
Lemma port_line_describes line m :
  re_match port_line_re line = Some m -> describes line (line_port m).
Proof.
  intros H. apply re_match_sound in H as (w & rest & -> & M).
  unfold port_line_re in M. inv_matches; unfold describes, line_port; simpl.
  all: repeat first [rewrite append_assoc | progress simpl].
  all: do 5 eexists; split; [reflexivity|].
  all: unfold valid_protocol; repeat split; auto.
Qed.

(** And the other way round: a line that reads as a rule passes the
    strict pattern. *)
Lemma describes_matches line p :
  describes line p -> re_match port_line_re line <> None.
Proof.
  intros (sp1 & ds & sp2 & sp3 & rest & -> & Hs1 & Hd0 & Hd & Hs20 & Hs2
          & Hp0 & Hp & V & Hs30 & Hs3).
  assert (exists g',
    Matches port_line_re 0
      ("" ++ String lbracket "" ++ sp1 ++ ds ++ String rbracket "" ++ sp2
       ++ port_num p ++ suffix_of (protocol p) ++ sp3 ++ action_of (allowed p))
      no_groups g') as [g' M].
  { unfold port_line_re.
    destruct V as [E | [E | E]]; rewrite E; destruct (allowed p); eexists.
    all: eapply MSeq; [apply MBol|].
    all: eapply MSeq; [apply MChr|].
    all: eapply MSeq; [apply MMany; exact Hs1|].
    all: eapply MSeq; [apply MMany1; [exact Hd0 | exact Hd]|].
    all: eapply MSeq; [apply MChr|].
    all: eapply MSeq; [apply MMany1; [exact Hs20 | exact Hs2]|].
    all: eapply MSeq; [eapply MGroup, MMany1; [exact Hp0 | exact Hp]|].
    all: eapply MSeq;
      [first [ apply MOptNone
             | apply MOptSome; eapply (MSeq _ _ _ (String "/"%char "") "tcp");
               [apply MChr | eapply MGroup, MAltL, MLit]
             | apply MOptSome; eapply (MSeq _ _ _ (String "/"%char "") "udp");
               [apply MChr | eapply MGroup, MAltR, MLit] ]|].
    all: eapply MSeq; [apply MMany1; [exact Hs30 | exact Hs3]|].
    all: first [eapply MGroup, MAltL, MLit | eapply MGroup, MAltR, MLit]. }
  apply (re_match_complete _ _ rest) in M.
  repeat first [rewrite append_assoc in M | progress simpl in M].
  exact M.
Qed.

(** A line reads as one rule at most. *)
Lemma describes_functional line p q :
  describes line p -> describes line q -> p = q.
Proof.
  intros (sp1 & ds & sp2 & sp3 & rest & -> & Hs1 & Hd0 & Hd & Hs20 & Hs2
          & Hp0 & Hp & Vp & Hs30 & Hs3)
         (sp1' & ds' & sp2' & sp3' & rest' & E & Hs1' & Hd0' & Hd' & Hs20' & Hs2'
          & Hq0 & Hq & Vq & Hs30' & Hs3').
  simpl in E. inv E. rename H0 into E.
  apply (run_unique Chars.is_space) in E as [-> E]; auto;
    try (eapply stops_app; [apply digit_not_space | assumption | assumption]).
  apply (run_unique Chars.is_digit) in E as [-> E]; auto; try reflexivity.
  simpl in E. inv E. rename H0 into E.
  apply (run_unique Chars.is_space) in E as [-> E]; auto;
    try (eapply stops_app; [apply word_not_space | assumption | assumption]).
  assert (St : forall proto sp r,
             valid_protocol proto -> sp <> "" ->
             all_chars Chars.is_space sp = true ->
             stops Chars.is_word (suffix_of proto ++ sp ++ r)).
  { intros proto sp r [-> | [-> | ->]] Hn Ha; simpl; try reflexivity.
    eapply stops_app; [apply space_not_word | exact Hn | exact Ha]. }
  apply (run_unique Chars.is_word) in E as [Epn E]; auto.
  assert (Es : protocol p = protocol q
               /\ sp3 ++ action_of (allowed p) ++ rest
                  = sp3' ++ action_of (allowed q) ++ rest').
  { destruct sp3 as [|c3 sp3]; [congruence|].
    destruct sp3' as [|c3' sp3']; [congruence|].
    simpl in Hs3, Hs3'.
    apply andb_prop in Hs3 as [Hc3 _]. apply andb_prop in Hs3' as [Hc3' _].
    destruct Vp as [Ep | [Ep | Ep]]; destruct Vq as [Eq | [Eq | Eq]];
      rewrite Ep, Eq in E |- *; simpl in E.
    all: try (split; [reflexivity | exact E]).
    all: try (inv E; split; [reflexivity | simpl; congruence]).
    all: try (inv E; vm_compute in Hc3; discriminate Hc3).
    all: try (inv E; vm_compute in Hc3'; discriminate Hc3'). }
  destruct Es as [Epr E'].
  assert (Sa : forall b r, stops Chars.is_space (action_of b ++ r))
    by (intros [] r; reflexivity).
  apply (run_unique Chars.is_space) in E' as [_ E']; auto.
  assert (Ea : allowed p = allowed q).
  { destruct (allowed p), (allowed q); simpl in E'; auto; discriminate. }
  destruct p, q; simpl in *; congruence.
Qed.

(** The filter of [get_ports] keeps the numbered lines, and only them. *)
Lemma numbered_iff line :
  is_some (re_match numbered_re line) = true <-> numbered line.
Proof.
  split.
  - destruct (re_match numbered_re line) as [m|] eqn:E; [|discriminate].
    intros _. apply re_match_sound in E as (w & rest & -> & M).
    unfold numbered_re in M. inv_matches. unfold numbered.
    repeat first [rewrite append_assoc | progress simpl].
    do 3 eexists. split; [reflexivity|]. auto.
  - intros (sp & ds & rest & -> & Hs & Hd0 & Hd).
    assert (exists g',
      Matches numbered_re 0
        ("" ++ String lbracket "" ++ sp ++ ds ++ String rbracket "")
        no_groups g') as [g' M].
    { unfold numbered_re. eexists.
      eapply MSeq; [apply MBol|].
      eapply MSeq; [apply MChr|].
      eapply MSeq; [apply MMany; exact Hs|].
      eapply MSeq; [eapply MGroup, MMany1; [exact Hd0 | exact Hd]|].
      apply MChr. }
    apply (re_match_complete _ _ rest) in M.
    repeat first [rewrite append_assoc in M | progress simpl in M].
    destruct (re_match numbered_re _); [reflexivity | congruence].
Qed.

(** A token the add pattern accepts starts as the rule built from its
    groups reads: [!] for a denied one, the port token, [/tcp] or [/udp]
    unless the protocol is [any]; text may follow. *)
Lemma token_describes tok m :
  re_match token_re tok = Some m ->
  exists rest,
    tok = (if allowed (token_port m) then "" else "!")
          ++ port_num (token_port m)
          ++ suffix_of (protocol (token_port m)) ++ rest
    /\ port_num (token_port m) <> ""
    /\ all_chars Chars.is_word (port_num (token_port m)) = true
    /\ valid_protocol (protocol (token_port m)).
Proof.
  intros H. apply re_match_sound in H as (w & rest & -> & M).
  unfold token_re in M. inv_matches; unfold token_port; simpl.
  all: repeat first [rewrite append_assoc | progress simpl].
  all: eexists; split; [reflexivity|].
  all: unfold valid_protocol; repeat split; auto.
Qed.

End Patterns.

(* ================================================================== *)
(** * Sorting by a string key *)
(* ================================================================== *)

Module SortFacts.
Import Py.

Lemma leb_refl (a : string) : String.leb a a = true.
Proof. destruct (String.leb_total a a); assumption. Qed.

Lemma leb_lt_or_eq (a b : string) :
  String.leb a b = true <-> a = b \/ String.compare a b = Lt.
Proof.
  unfold String.leb. destruct (String.compare a b) eqn:E.
  - apply String.compare_eq_iff in E. tauto.
  - tauto.
  - split; [discriminate|]. intros [->|]; [|discriminate].
    pose proof (leb_refl b) as R. unfold String.leb in R. now rewrite E in R.
Qed.

Lemma compare_lt_trans (a b c : string) :
  String.compare a b = Lt -> String.compare b c = Lt -> String.compare a c = Lt.
Proof.
  revert b c. induction a as [|x a IH]; intros [|y b] [|z c]; simpl;
    try discriminate; try reflexivity.
  unfold Ascii.compare.
  destruct (N.compare_spec (N_of_ascii x) (N_of_ascii y)) as [E1|L1|G1];
    try discriminate;
    destruct (N.compare_spec (N_of_ascii y) (N_of_ascii z)) as [E2|L2|G2];
    try discriminate; intros H1 H2.
  - rewrite E1, E2, N.compare_refl. eauto.
  - rewrite E1. now apply N.compare_lt_iff in L2 as ->.
  - rewrite <- E2. now apply N.compare_lt_iff in L1 as ->.
  - assert (L : (N_of_ascii x < N_of_ascii z)%N) by lia.
    now apply N.compare_lt_iff in L as ->.
Qed.

Lemma leb_trans (a b c : string) :
  String.leb a b = true -> String.leb b c = true -> String.leb a c = true.
Proof.
  rewrite !leb_lt_or_eq. intros [->|H1] [->|H2]; auto.
  right. eapply compare_lt_trans; eassumption.
Qed.

Section Sorting.
Context {A : Type} (key : A -> string).

Lemma insert_perm x l : Permutation (x :: l) (insert key x l).
Proof.
  induction l as [|y l IH]; simpl; [reflexivity|].
  destruct (String.leb (key x) (key y)); [reflexivity|].
  rewrite perm_swap. now constructor.
Qed.

Lemma sort_perm l : Permutation l (sort key l).
Proof.
  induction l as [|x l IH]; simpl; [constructor|].
  rewrite <- insert_perm. now constructor.
Qed.

Lemma sort_length l : List.length (sort key l) = List.length l.
Proof. symmetry. apply Permutation_length, sort_perm. Qed.

Lemma insert_sorted x l :
  StronglySorted (key_le key) l -> StronglySorted (key_le key) (insert key x l).
Proof.
  induction 1 as [|y l Hs IH Hy]; simpl.
  - repeat constructor.
  - destruct (String.leb (key x) (key y)) eqn:E.
    + constructor; [now constructor|].
      constructor; [exact E|].
      eapply Forall_impl; [|exact Hy].
      intros z Hz. eapply leb_trans; eassumption.
    + constructor; [exact IH|].
      eapply Permutation_Forall; [apply insert_perm|].
      constructor; [|exact Hy].
      destruct (String.leb_total (key x) (key y)) as [C|C]; [congruence|exact C].
Qed.

Lemma sort_sorted l : StronglySorted (key_le key) (sort key l).
Proof.
  induction l as [|x l IH]; simpl; [constructor | now apply insert_sorted].
Qed.

(** Stability: the elements of one key keep their order. *)
Lemma insert_stable k x l :
  filter (fun y => String.eqb (key y) k) (insert key x l)
  = filter (fun y => String.eqb (key y) k) (x :: l).
Proof.
  induction l as [|y l IH]; [reflexivity|].
  simpl insert. destruct (String.leb (key x) (key y)) eqn:E; [reflexivity|].
  simpl in *. rewrite IH.
  destruct (String.eqb (key x) k) eqn:Ex, (String.eqb (key y) k) eqn:Ey;
    try reflexivity.
  apply String.eqb_eq in Ex, Ey. rewrite Ex, Ey, leb_refl in E. discriminate.
Qed.

Lemma sort_stable k l :
  filter (fun y => String.eqb (key y) k) (sort key l)
  = filter (fun y => String.eqb (key y) k) l.
Proof.
  induction l as [|x l IH]; [reflexivity|].
  simpl sort. rewrite insert_stable. simpl. now rewrite IH.
Qed.
End Sorting.

End SortFacts.

(* ================================================================== *)
(** * get_ports *)
(* ================================================================== *)

Module ParserFacts.
Import Re ReFacts Patterns SortFacts.

Lemma get_ports_eq stdout log :
  get_ports stdout log =
    let lines := numbered_lines stdout in
    if Nat.eqb (List.length lines mod 2) 0 then
      match ports_of_lines (firstn (List.length lines / 2) lines) []
              (log ++ [status_command])%list with
      | Ok port_lst log' => Ok (Py.sort port_num port_lst) log'
      | Raise e log' => Raise e log'
      end
    else Raise parity_error (log ++ [status_command])%list.
Proof.
  unfold get_ports, numbered_lines, bind, subprocess_run, emit. cbv zeta.
  destruct (Nat.eqb _ 0); reflexivity.
Qed.

(** Lines that all pass the strict pattern are turned, in order, into the
    rules they describe, and nothing is logged. *)
Lemma ports_of_lines_ok lines : forall acc log,
  Forall (fun line => re_match port_line_re line <> None) lines ->
  exists rules,
    Forall2 describes lines rules
    /\ ports_of_lines lines acc log = Ok (acc ++ rules)%list log.
Proof.
  induction lines as [|line lines IH]; intros acc log H.
  - exists []. split; [constructor|]. simpl. now rewrite app_nil_r.
  - inv H. destruct (re_match port_line_re line) as [m|] eqn:E; [|congruence].
    destruct (IH (acc ++ [line_port m])%list log H3) as (rules & Hd & Hr).
    exists (line_port m :: rules). split.
    + constructor; [now apply port_line_describes | exact Hd].
    + simpl. unfold bind, port_of_line. rewrite E. unfold ret.
      rewrite Hr. now rewrite <- app_assoc.
Qed.

(** The first line that fails the strict pattern stops the loop: the
    rules read so far are dropped and the line is named. *)
Lemma ports_of_lines_invalid good bad rest : forall acc log,
  Forall (fun line => re_match port_line_re line <> None) good ->
  re_match port_line_re bad = None ->
  ports_of_lines (good ++ bad :: rest)%list acc log
  = Raise (ValueError ("Invalid line: " ++ bad)) log.
Proof.
  induction good as [|line good IH]; intros acc log H Hb; simpl.
  - unfold bind, port_of_line. now rewrite Hb.
  - inv H. destruct (re_match port_line_re line) as [m|] eqn:E; [|congruence].
    unfold bind, port_of_line. rewrite E. unfold ret. now apply IH.
Qed.

(** C9. A status text with an odd number of numbered lines makes
    [get_ports] raise the parity [ValueError]; no list of rules is
    returned, and only the status command has run. *)
Theorem get_ports_odd stdout log :
  Nat.Odd (List.length (numbered_lines stdout)) ->
  get_ports stdout log = Raise parity_error (log ++ [status_command])%list.
Proof.
  intros [k Hk]. rewrite get_ports_eq. cbv zeta. rewrite Hk.
  replace ((2 * k + 1) mod 2) with 1; [reflexivity|].
  rewrite Nat.add_comm, Nat.mul_comm, Nat.Div0.mod_add. reflexivity.
Qed.

Lemma get_ports_odd_witness :
  Nat.Odd (List.length (numbered_lines "[ 1] 22 ALLOW IN Anywhere"))
  /\ get_ports "[ 1] 22 ALLOW IN Anywhere" []
     = Raise parity_error [status_command].
Proof.
  assert (H : Nat.Odd (List.length (numbered_lines "[ 1] 22 ALLOW IN Anywhere")))
    by (exists 0; reflexivity).
  split; [exact H | exact (get_ports_odd _ [] H)].
Defined.

(** C1 as stated fails: two numbered lines, an even count,
    and [get_ports] raises on the first, which has no port and action. *)
Lemma get_ports_even_count_raises :
  List.length (numbered_lines ("[1]" ++ nl ++ "[2]")) = 2 * 1
  /\ get_ports ("[1]" ++ nl ++ "[2]") []
     = Raise (ValueError "Invalid line: [1]") [status_command].
Proof. split; reflexivity. Qed.

(** The rules a list of lines describes are determined by the lines. *)
Lemma describes_all_functional lines : forall rules rules',
  Forall2 describes lines rules -> Forall2 describes lines rules' ->
  rules = rules'.
Proof.
  induction lines as [|line lines IH]; intros rules rules' H H'; inv H; inv H'.
  - reflexivity.
  - f_equal; [eapply describes_functional; eassumption | now apply IH].
Qed.

Lemma describes_all_match lines rules :
  Forall2 describes lines rules ->
  Forall (fun line => re_match port_line_re line <> None) lines.
Proof.
  induction 1; constructor; [eapply describes_matches; eassumption | assumption].
Qed.

(** The lines [get_ports] keeps are the numbered lines of the text. *)
Lemma numbered_lines_spec stdout line :
  In line (numbered_lines stdout)
  <-> In line (Py.splitlines stdout) /\ numbered line.
Proof.
  unfold numbered_lines. rewrite filter_In, numbered_iff. reflexivity.
Qed.

(** X24. An even count with a retained line that reads as no rule: the
    parse fails on the first such line and names it; no rule read before
    it is returned. *)
Lemma get_ports_invalid_line stdout n good bad rest rules log :
  List.length (numbered_lines stdout) = 2 * n ->
  firstn n (numbered_lines stdout) = (good ++ bad :: rest)%list ->
  Forall2 describes good rules ->
  (forall p, ~ describes bad p) ->
  get_ports stdout log
  = Raise (ValueError ("Invalid line: " ++ bad)) (log ++ [status_command])%list.
Proof.
  intros Hn Hf Hg Hb. rewrite get_ports_eq. cbv zeta. rewrite Hn.
  replace (2 * n mod 2) with 0
    by (rewrite Nat.mul_comm, Nat.Div0.mod_mul; reflexivity).
  replace (2 * n / 2) with n
    by (rewrite Nat.mul_comm, Nat.div_mul; [reflexivity | discriminate]).
  simpl Nat.eqb. cbv iota. rewrite Hf.
  rewrite ports_of_lines_invalid; [reflexivity | eapply describes_all_match; exact Hg |].
  destruct (re_match port_line_re bad) as [m|] eqn:E; [|reflexivity].
  exfalso. eapply Hb, port_line_describes, E.
Qed.

(** C1, amended. When the numbered lines of the status text number [2n]
    and each of the first [n] reads as a rule (bracketed number, port
    token, [/tcp] or [/udp] or, for [any], nothing, then [ALLOW] for an
    allowed rule and [DENY] for a denied one), [get_ports] succeeds and
    returns those [n] rules stably sorted in ascending order of the port
    token compared as a string. *)
Theorem get_ports_even stdout n rules log :
  List.length (numbered_lines stdout) = 2 * n ->
  Forall2 describes (firstn n (numbered_lines stdout)) rules ->
  get_ports stdout log = Ok (Py.sort port_num rules) (log ++ [status_command])%list
  /\ List.length (Py.sort port_num rules) = n
  /\ Permutation rules (Py.sort port_num rules)
  /\ StronglySorted port_le (Py.sort port_num rules)
  /\ forall k,
       filter (fun p => String.eqb (port_num p) k) (Py.sort port_num rules)
       = filter (fun p => String.eqb (port_num p) k) rules.
Proof.
  intros Hn Hd.
  destruct (ports_of_lines_ok _ [] (log ++ [status_command])%list
              (describes_all_match _ _ Hd)) as (rules' & Hd' & Hr).
  rewrite (describes_all_functional _ _ _ Hd' Hd) in Hr. clear rules' Hd'.
  split.
  - rewrite get_ports_eq. cbv zeta. rewrite Hn.
    replace (2 * n mod 2) with 0
      by (rewrite Nat.mul_comm, Nat.Div0.mod_mul; reflexivity).
    replace (2 * n / 2) with n
      by (rewrite Nat.mul_comm, Nat.div_mul; [reflexivity | discriminate]).
    simpl Nat.eqb. cbv iota. now rewrite Hr.
  - split; [|split; [apply sort_perm | split; [apply sort_sorted | intros; apply sort_stable]]].
    rewrite sort_length. apply Forall2_length in Hd. rewrite <- Hd.
    apply firstn_length_le. lia.
Qed.

Lemma get_ports_even_witness :
  get_ports two_rules []
  = Ok [mkPort "22" true "any"; mkPort "80" false "tcp"] [status_command].
Proof.
  apply (get_ports_even two_rules 2
           [mkPort "80" false "tcp"; mkPort "22" true "any"] []).
  - reflexivity.
  - repeat constructor.
    + exists " ", "1", " ", "   ", " IN".
      repeat split; try discriminate. right; left; reflexivity.
    + exists " ", "2", " ", " ", " IN".
      repeat split; try discriminate. left; reflexivity.
Defined.

End ParserFacts.

(* ================================================================== *)
(** * class Port: toggling *)
(* ================================================================== *)

Module PortFacts.

(** A rule with one of the three protocols renders, logging nothing. *)
Lemma str_port_valid p log :
  valid_protocol (protocol p) ->
  str_port p log = Ok (port_num p ++ suffix_of (protocol p)) log.
Proof.
  unfold str_port, suffix_of.
  intros [E|[E|E]]; rewrite E; simpl; [now rewrite append_nil_r | reflexivity ..].
Qed.

Lemma str_port_set_allowed b p log :
  str_port (set_allowed b p) log = str_port p log.
Proof. reflexivity. Qed.

Lemma allow_valid p log :
  valid_protocol (protocol p) ->
  allow p log
  = Ok (set_allowed true p)
       (log ++ [mutation true (port_num p ++ suffix_of (protocol p))])%list.
Proof.
  intros V. unfold allow, bind. now rewrite (str_port_valid p log V).
Qed.

Lemma deny_valid p log :
  valid_protocol (protocol p) ->
  deny p log
  = Ok (set_allowed false p)
       (log ++ [mutation false (port_num p ++ suffix_of (protocol p))])%list.
Proof.
  intros V. unfold deny, bind. now rewrite (str_port_valid p log V).
Qed.

Lemma toggle_valid p log :
  valid_protocol (protocol p) ->
  toggle p log
  = Ok (set_allowed (negb (allowed p)) p)
       (log ++ [mutation (negb (allowed p))
                  (port_num p ++ suffix_of (protocol p))])%list.
Proof.
  intros V. unfold toggle.
  destruct (allowed p); [now apply deny_valid | now apply allow_valid].
Qed.

(** A protocol outside the three makes [str_port] raise before any
    command runs. *)
Lemma toggle_unknown_protocol p log :
  ~ valid_protocol (protocol p) ->
  toggle p log = Raise (ValueError ("Invalid protocol: " ++ protocol p)) log.
Proof.
  intros V. unfold toggle, deny, allow, bind, str_port, valid_protocol in *.
  destruct (String.eqb_spec (protocol p) "any"); [tauto|].
  destruct (String.eqb_spec (protocol p) "tcp"); [tauto|].
  destruct (String.eqb_spec (protocol p) "udp"); [tauto|].
  simpl. destruct (allowed p); reflexivity.
Qed.

(** C7. Two calls of [toggle] in a row on a rule leave the rule as it
    was, its flag included, and run two commands, one per call: the
    opposite of the flag, then the flag, both on what [str_port] renders. *)
Theorem toggle_twice p log :
  valid_protocol (protocol p) ->
  exists spec,
    str_port p log = Ok spec log
    /\ bind (toggle p) toggle log
       = Ok p (log ++ [mutation (negb (allowed p)) spec;
                       mutation (allowed p) spec])%list.
Proof.
  intros V. exists (port_num p ++ suffix_of (protocol p)).
  split; [now apply str_port_valid|].
  unfold bind. rewrite (toggle_valid p log V).
  rewrite toggle_valid by exact V.
  destruct p as [n a pr]; simpl. rewrite negb_involutive, <- app_assoc.
  reflexivity.
Qed.

Lemma toggle_twice_witness :
  exists spec,
    str_port (mkPort "80" false "tcp") [] = Ok spec []
    /\ bind (toggle (mkPort "80" false "tcp")) toggle []
       = Ok (mkPort "80" false "tcp")
            ([] ++ [mutation true spec; mutation false spec])%list.
Proof.
  apply (toggle_twice (mkPort "80" false "tcp") []).
  right; left; reflexivity.
Defined.

End PortFacts.

(* ================================================================== *)
(** * main: the scroll window *)
(* ================================================================== *)

Module ViewportFacts.
Local Open Scope Z_scope.

(** C2. With a selected row inside the list and at least one visible
    row, the scroll window starts at 0 while the selection is above the
    height and at [selected - height + 1] from then on, ends at
    [min(total, start + height)], holds the selected row, is no taller
    than the height and lies within the list. *)
Theorem viewport_bounds selected_index total_count visible_height :
  0 <= selected_index < total_count ->
  1 <= visible_height ->
  let (start, end_) := viewport selected_index total_count visible_height in
  start = (if selected_index <? visible_height then 0
           else selected_index - visible_height + 1)
  /\ end_ = Z.min total_count (start + visible_height)
  /\ start <= selected_index < end_
  /\ end_ - start <= visible_height
  /\ 0 <= start
  /\ end_ <= total_count.
Proof.
  intros Hs Hv. unfold viewport.
  destruct (Z.geb_spec selected_index visible_height) as [G|G];
    destruct (Z.ltb_spec selected_index visible_height) as [L|L]; lia.
Qed.

Lemma viewport_bounds_witness :
  let (start, end_) := viewport 7 10 5 in
  start = 3 /\ end_ = 8 /\ start <= 7 < end_ /\ end_ - start <= 5
  /\ 0 <= start /\ end_ <= 10.
Proof.
  assert (H := viewport_bounds 7 10 5 ltac:(lia) ltac:(lia)).
  exact H.
Defined.

End ViewportFacts.

(* ================================================================== *)
(** * main: adding ports *)
(* ================================================================== *)

Module AddFacts.
Import Re ReFacts Patterns PortFacts.

Lemma existsb_eqb_In x l :
  existsb (String.eqb x) l = true <-> In x l.
Proof.
  rewrite existsb_exists. split.
  - intros (y & Hy & E). apply String.eqb_eq in E. now subst.
  - intros H. exists x. split; [exact H | apply String.eqb_refl].
Qed.

(** A token the pattern rejects is reported and skipped; the tokens after
    it are processed from the same collection. *)
Lemma add_ports_invalid_token tok rest lst log :
  re_match token_re tok = None ->
  add_ports (tok :: rest) lst log
  = add_ports rest lst (log ++ [Popup None ("Invalid port: " ++ tok)])%list.
Proof.
  intros H. simpl. unfold bind at 1. unfold add_port. now rewrite H.
Qed.

(** C3 as stated fails: [22/tcp] is a new pair for a
    collection holding [22/udp], and the token is rejected all the same. *)
Lemma add_port_other_protocol_rejected :
  (exists m, re_match token_re "22/tcp" = Some m
             /\ token_port m = mkPort "22" true "tcp")
  /\ ~ In ("22", "tcp")
         (map (fun p => (port_num p, protocol p)) [mkPort "22" true "udp"])
  /\ add_port "22/tcp" [mkPort "22" true "udp"] []
     = Ok [mkPort "22" true "udp"] [Popup None "Port 22 already exists"].
Proof.
  split; [eexists; split; reflexivity|].
  split; [|reflexivity].
  simpl. intros [H|[]]. discriminate.
Qed.

(** The two ways [add_port] treats a token the pattern accepts. *)
Lemma add_port_accepted tok m lst log :
  re_match token_re tok = Some m ->
  let port := token_port m in
  (In (port_num port) (map port_num lst) ->
     add_port tok lst log
     = Ok lst (log ++ [Popup None ("Port " ++ port_num port ++ " already exists")])%list)
  /\ (~ In (port_num port) (map port_num lst) ->
     exists spec,
       str_port port log = Ok spec log
       /\ add_port tok lst log
          = Ok (lst ++ [port])%list (log ++ [mutation (allowed port) spec])%list).
Proof.
  intros Hm port. pose proof (token_describes tok m Hm) as (_ & _ & _ & _ & V).
  fold port in V. unfold add_port. rewrite Hm. fold port. split; intros H.
  - apply existsb_eqb_In in H. now rewrite H.
  - destruct (existsb _ _) eqn:E; [apply existsb_eqb_In in E; contradiction|].
    exists (port_num port ++ suffix_of (protocol port)).
    split; [now apply str_port_valid|].
    unfold bind. destruct (allowed port) eqn:A.
    + rewrite (allow_valid port log V). unfold ret. f_equal. f_equal.
      destruct port; simpl in *; now subst.
    + rewrite (deny_valid port log V). unfold ret. f_equal. f_equal.
      destruct port; simpl in *; now subst.
Qed.

(** C3, amended. A token the pattern accepts is rejected exactly when its
    port token is already the port token of a rule of the collection,
    whatever the protocols: then the collection is unchanged, no command
    runs and the popup says the port exists; otherwise the rule built from
    the token runs its allow or deny command, by its flag, and is appended. *)
Theorem add_port_by_number tok m lst log :
  re_match token_re tok = Some m ->
  let port := token_port m in
  (In (port_num port) (map port_num lst) <->
     add_port tok lst log
     = Ok lst (log ++ [Popup None ("Port " ++ port_num port ++ " already exists")])%list)
  /\ (~ In (port_num port) (map port_num lst) ->
     exists spec,
       str_port port log = Ok spec log
       /\ add_port tok lst log
          = Ok (lst ++ [port])%list (log ++ [mutation (allowed port) spec])%list).
Proof.
  intros Hm port. destruct (add_port_accepted tok m lst log Hm) as [Hdup Hnew].
  fold port in Hdup, Hnew. split; [split; [exact Hdup|] | exact Hnew].
  intros E.
  destruct (in_dec string_dec (port_num port) (map port_num lst)) as [I|I];
    [exact I|].
  destruct (Hnew I) as (spec & _ & E'). rewrite E' in E. inv E.
  exfalso. apply (f_equal (@List.length _)) in H0.
  rewrite length_app in H0. simpl in H0. lia.
Qed.

Lemma add_port_by_number_witness :
  exists m, re_match token_re "!53/udp" = Some m
  /\ add_port "!53/udp" [mkPort "53" true "tcp"] []
     = Ok [mkPort "53" true "tcp"]
          ([] ++ [Popup None ("Port " ++ port_num (token_port m) ++ " already exists")])%list.
Proof.
  destruct (re_match token_re "!53/udp") as [m|] eqn:E; [|discriminate].
  exists m. split; [reflexivity|].
  apply (add_port_by_number "!53/udp" m [mkPort "53" true "tcp"] [] E).
  vm_compute in E. inv E. left. reflexivity.
Defined.

(** C4. [443/tcp !25] entered at the prompt over an empty collection
    runs [allow 443/tcp], then [deny 25], and leaves the two rules in the
    order entered. *)
Theorem add_two_ports_from_empty :
  step Key.a "443/tcp !25" (mkSession [] 0) []
  = Ok (Next, mkSession [mkPort "443" true "tcp"; mkPort "25" false "any"] 0)
       [Prompt add_prompt;
        Run ["sudo"; "ufw"; "allow"; "443/tcp"];
        Run ["sudo"; "ufw"; "deny"; "25"]].
Proof. reflexivity. Qed.

(** C8: [22/foo] is not a whole token of the grammar, and the pattern
    accepts its start: the rule [22] on any protocol is built and allowed,
    with no popup. *)
Theorem add_port_trailing_text_accepted :
  ~ whole_token "22/foo"
  /\ add_port "22/foo" [] []
     = Ok [mkPort "22" true "any"] [Run ["sudo"; "ufw"; "allow"; "22"]].
Proof.
  split; [|reflexivity].
  intros (bang & port & suffix & E & Hb & Hne & Hw & Hs).
  destruct Hb as [-> | ->]; [|discriminate]. simpl in E.
  destruct Hs as [-> | [-> | ->]].
  - rewrite append_nil_r in E. subst port. vm_compute in Hw. discriminate Hw.
  - do 7 (destruct port as [|? port]; simpl in E; [discriminate E|]).
    discriminate E.
  - do 7 (destruct port as [|? port]; simpl in E; [discriminate E|]).
    discriminate E.
Qed.

(** A token that is only [!] is rejected, as is the empty token two
    spaces in a row leave. *)
Lemma add_port_bang_rejected :
  add_port "!" [] [] = Ok [] [Popup None "Invalid port: !"]
  /\ add_ports (Py.split " "%char "22  80") [] []
     = Ok [mkPort "22" true "any"; mkPort "80" true "any"]
          [Run ["sudo"; "ufw"; "allow"; "22"];
           Popup None "Invalid port: ";
           Run ["sudo"; "ufw"; "allow"; "80"]].
Proof. split; reflexivity. Qed.

(** C10. When what was entered at the add prompt strips to the empty
    string, the add key changes neither the collection nor the cursor,
    runs no command and shows no popup: the prompt is all there was. *)
Theorem add_key_empty_input typed s log :
  Py.strip typed = "" ->
  step Key.a typed s log = Ok (Next, s) (log ++ [Prompt add_prompt])%list.
Proof.
  intros H. unfold step, input_window, bind, emit, ret. cbn. now rewrite H.
Qed.

Lemma add_key_empty_input_witness :
  Py.strip "   " = ""
  /\ step Key.a "   " (mkSession [mkPort "22" true "any"] 0) []
     = Ok (Next, mkSession [mkPort "22" true "any"] 0)
          ([] ++ [Prompt add_prompt])%list.
Proof.
  split; [reflexivity|].
  apply (add_key_empty_input "   " (mkSession [mkPort "22" true "any"] 0) []).
  reflexivity.
Defined.

End AddFacts.

(* ================================================================== *)
(** * main: the session and its keys *)
(* ================================================================== *)

Module SessionFacts.
Import Re ReFacts Patterns PortFacts SortFacts ParserFacts AddFacts.
Local Open Scope Z_scope.

Lemma replace_at_length {A} (y : A) l : forall n,
  List.length (Py.replace_at n y l) = List.length l.
Proof.
  induction l as [|x l IH]; intros [|n]; simpl; auto.
Qed.

Lemma replace_at_Forall {A} (P : A -> Prop) (y : A) l : forall n,
  P y -> Forall P l -> Forall P (Py.replace_at n y l).
Proof.
  induction l as [|x l IH]; intros [|n] Hy H; simpl; auto; inv H;
    constructor; auto.
Qed.

Lemma remove_at_length {A} (l : list A) : forall n,
  (n < List.length l)%nat ->
  List.length (Py.remove_at n l) = (List.length l - 1)%nat.
Proof.
  induction l as [|x l IH]; intros [|n] H; simpl in *; try lia.
  rewrite IH by lia. lia.
Qed.

Lemma remove_at_Forall {A} (P : A -> Prop) (l : list A) : forall n,
  Forall P l -> Forall P (Py.remove_at n l).
Proof.
  induction l as [|x l IH]; intros [|n] H; simpl; auto; inv H; auto.
Qed.

(** Within [-1 .. len - 1], an index into a list that is not empty
    addresses one of its elements. *)
Lemma index_of_row {A} (l : list A) i :
  l <> [] -> -1 <= i <= Z.of_nat (List.length l) - 1 ->
  exists n x, Py.index_of l i = Some n /\ nth_error l n = Some x.
Proof.
  intros Hne Hi. unfold Py.index_of.
  assert (0 < Z.of_nat (List.length l)) by (destruct l; [congruence | simpl; lia]).
  assert (R : forall n, (n < List.length l)%nat -> exists x, nth_error l n = Some x).
  { intros n Hn. destruct (nth_error l n) eqn:E; [eauto|].
    apply nth_error_None in E. lia. }
  destruct (Z.leb_spec 0 i); destruct (Z.ltb_spec i (Z.of_nat (List.length l)));
    simpl; try lia.
  - destruct (R (Z.to_nat i)) as [x Hx]; [lia|]. eauto.
  - destruct (Z.leb_spec (- Z.of_nat (List.length l)) i);
      destruct (Z.ltb_spec i 0); simpl; try lia.
    destruct (R (Z.to_nat (i + Z.of_nat (List.length l)))) as [x Hx]; [lia|].
    eauto.
Qed.

Lemma index_of_lt {A} (l : list A) i n :
  Py.index_of l i = Some n -> (n < List.length l)%nat.
Proof.
  unfold Py.index_of.
  destruct (Z.leb_spec 0 i); destruct (Z.ltb_spec i (Z.of_nat (List.length l)));
    simpl; try (intros E; inv E; lia);
    destruct (Z.leb_spec (- Z.of_nat (List.length l)) i);
    destruct (Z.ltb_spec i 0); simpl; intros E; inv E; lia.
Qed.

(** No index addresses an element of the empty list. *)
Lemma getitem_nil {A} i log : @getitem A [] i log = Raise IndexError log.
Proof.
  unfold getitem, Py.index_of. simpl.
  destruct (Z.leb_spec 0 i); destruct (Z.ltb_spec i 0); simpl; try reflexivity; lia.
Qed.

(** ** Adding never raises and keeps the rules well formed *)

Lemma add_port_ok tok lst log :
  Forall valid_port lst ->
  exists lst' log',
    add_port tok lst log = Ok lst' log'
    /\ Forall valid_port lst'
    /\ (List.length lst <= List.length lst')%nat.
Proof.
  intros V. destruct (re_match token_re tok) as [m|] eqn:E.
  - destruct (add_port_accepted tok m lst log E) as [Hdup Hnew].
    pose proof (token_describes tok m E) as (_ & _ & _ & _ & Vp).
    destruct (in_dec string_dec (port_num (token_port m)) (map port_num lst))
      as [I|I].
    + rewrite (Hdup I). eauto.
    + destruct (Hnew I) as (spec & _ & ->).
      do 2 eexists. split; [reflexivity|]. split.
      * apply Forall_app. split; [exact V | now constructor].
      * rewrite length_app. lia.
  - unfold add_port. rewrite E. unfold bind, show_popup, emit, ret. eauto.
Qed.

Lemma add_ports_ok toks : forall lst log,
  Forall valid_port lst ->
  exists lst' log',
    add_ports toks lst log = Ok lst' log'
    /\ Forall valid_port lst'
    /\ (List.length lst <= List.length lst')%nat.
Proof.
  induction toks as [|tok toks IH]; intros lst log V; simpl.
  - unfold ret. eauto.
  - destruct (add_port_ok tok lst log V) as (l1 & g1 & E1 & V1 & L1).
    unfold bind. rewrite E1.
    destruct (IH l1 g1 V1) as (l2 & g2 & E2 & V2 & L2).
    rewrite E2. do 2 eexists. split; [reflexivity|]. split; [exact V2 | lia].
Qed.

(** ** What [get_ports] returns is well formed *)



(** ** The steps keep the session well formed *)

Lemma toggle_at_ok l i log :
  l <> [] -> Forall valid_port l ->
  -1 <= i <= Z.of_nat (List.length l) - 1 ->
  exists l' log',
    toggle_at l i log = Ok l' log'
    /\ Forall valid_port l' /\ List.length l' = List.length l.
Proof.
  intros Hne V Hi. unfold toggle_at.
  destruct (index_of_row l i Hne Hi) as (n & p & -> & Hp). rewrite Hp.
  assert (Vp : valid_port p).
  { eapply Forall_forall; [exact V | eapply nth_error_In; exact Hp]. }
  unfold bind. rewrite (toggle_valid p log Vp). unfold ret.
  do 2 eexists. split; [reflexivity|]. split.
  - apply replace_at_Forall; [exact Vp | exact V].
  - apply replace_at_length.
Qed.

Lemma delete_row_ok l i log :
  l <> [] -> Forall valid_port l ->
  -1 <= i <= Z.of_nat (List.length l) - 1 ->
  exists l' log',
    bind (getitem l i) (fun p => bind (delete p) (fun _ => pop l i)) log
    = Ok l' log'
    /\ Forall valid_port l'
    /\ List.length l' = (List.length l - 1)%nat.
Proof.
  intros Hne V Hi. unfold getitem, pop.
  destruct (index_of_row l i Hne Hi) as (n & p & En & Hp).
  unfold bind. rewrite En, Hp. unfold ret, delete, bind.
  assert (Vp : valid_port p).
  { eapply Forall_forall; [exact V | eapply nth_error_In; exact Hp]. }
  rewrite (str_port_valid p log Vp). unfold subprocess_run, emit.
  do 2 eexists. split; [reflexivity|]. split.
  - now apply remove_at_Forall.
  - apply remove_at_length. eapply index_of_lt; exact En.
Qed.

Ltac key_case k c :=
  destruct (Z.eqb_spec k c) as [->|?]; cbn [andb].

Ltac run_m :=
  cbv beta iota delta
    [bind input_window show_popup subprocess_run emit ret raise].





(** X26. A cursor on a row stays on a row through every step that does
    not leave the list empty. *)
Lemma step_keeps_cursor_on_row key typed s log c s' log' :
  well_formed s ->
  0 <= current_index s < Z.of_nat (List.length (port_lst s)) ->
  step key typed s log = Ok (c, s') log' ->
  port_lst s' <> [] ->
  0 <= current_index s' < Z.of_nat (List.length (port_lst s')).
Proof.
  destruct s as [l i]. intros (V & _ & _) Hi. simpl in V, Hi.
  unfold step. cbn [port_lst current_index].
  key_case key Key.q.
  { intros E. inv E. auto. }
  destruct ((key =? Key.KEY_UP) && (i >? 0)) eqn:Eu.
  { intros E. inv E. apply andb_prop in Eu as [_ Eu]. simpl. lia. }
  destruct ((key =? Key.KEY_DOWN) && (i <? Z.of_nat (List.length l) - 1)) eqn:Ed.
  { intros E. inv E. apply andb_prop in Ed as [_ Ed]. simpl. lia. }
  key_case key Key.space.
  { destruct l as [|p l].
    - intros E. inv E. auto.
    - destruct (toggle_at_ok (p :: l) i log) as (l' & g & E & V' & L');
        [discriminate | exact V | lia |].
      unfold bind. rewrite E. unfold ret. intros E'. inv E'.
      simpl port_lst. simpl current_index. rewrite L'. auto. }
  key_case key Key.a.
  { run_m.
    destruct (String.eqb (Py.strip typed) "").
    - intros E. inv E. auto.
    - destruct (add_ports_ok (Py.split " "%char (Py.strip typed)) l
                  (log ++ [Prompt add_prompt])%list V) as (l' & g & E & V' & L').
      rewrite E. intros E'. inv E'. simpl. lia. }
  key_case key Key.d.
  { destruct l as [|p l].
    - unfold bind at 1. rewrite getitem_nil. discriminate.
    - destruct (delete_row_ok (p :: l) i log) as (l' & g & E & V' & L');
        [discriminate | exact V | lia |].
      unfold bind in E |- *.
      destruct (getitem (p :: l) i log) as [x g1|]; [|discriminate].
      destruct (delete x g1) as [u g2|]; [|discriminate].
      rewrite E. unfold ret. intros E'. inv E'. simpl port_lst. simpl current_index.
      intros Hne. assert (0 < List.length l')%nat by (destruct l'; [congruence | simpl; lia]).
      simpl List.length in L', Hi.
      destruct (Z.geb_spec i (Z.of_nat (List.length l'))); lia. }
  key_case key Key.h.
  { intros E. inv E. auto. }
  intros E. inv E. auto.
Qed.

(** C5: a status text without rules starts the loop on an empty list, and
    there the delete key, which is not the quit key, raises [IndexError]
    out of the loop: no popup, and [main] ends with the exception. *)
Theorem delete_key_on_empty_raises :
  reachable (mkSession [] 0)
  /\ Key.d <> Key.q
  /\ (forall typed log,
        step Key.d typed (mkSession [] 0) log = Raise IndexError log)
  /\ main inactive [(Key.d, "")] [] = Raise IndexError [status_command].
Proof.
  split; [|split; [discriminate | split; [reflexivity | reflexivity]]].
  apply (reach_init inactive [] [] [status_command]). reflexivity.
Qed.

(** C6: deleting the only rule leaves the cursor at -1, and the add key
    then fills the list without touching it: the session goes on with a
    rule in the list and the cursor on no row. *)
Theorem cursor_off_rows_after_delete_then_add :
  main one_rule [(Key.d, ""); (Key.a, "80")] []
  = Ok (Next, mkSession [mkPort "80" true "any"] (-1))
       [status_command;
        Run ["sudo"; "ufw"; "delete"; "allow"; "22"];
        Prompt add_prompt;
        Run ["sudo"; "ufw"; "allow"; "80"]]
  /\ reachable (mkSession [mkPort "80" true "any"] (-1))
  /\ ~ (0 <= -1 < Z.of_nat (List.length [mkPort "80" true "any"])).
Proof.
  split; [reflexivity|]. split; [|lia].
  apply (reach_step (mkSession [] (-1)) Key.a "80"
           [] _ [Prompt add_prompt; Run ["sudo"; "ufw"; "allow"; "80"]]);
    [|reflexivity].
  apply (reach_step (mkSession [mkPort "22" true "any"] 0) Key.d ""
           [] _ [Run ["sudo"; "ufw"; "delete"; "allow"; "22"]]);
    [|reflexivity].
  apply (reach_init one_rule [] _ [status_command]). reflexivity.
Qed.

(** With the cursor at -1 the toggle key acts on the last rule. *)
Lemma toggle_with_cursor_off_rows :
  step Key.space ""
    (mkSession [mkPort "22" true "any"; mkPort "80" true "any"] (-1)) []
  = Ok (Next, mkSession [mkPort "22" true "any"; mkPort "80" false "any"] (-1))
       [Run ["sudo"; "ufw"; "deny"; "80"]].
Proof. reflexivity. Qed.

End SessionFacts.

(* ================================================================== *)
(** * Greedy matching settles on the longest run *)
(* ================================================================== *)

Module Greedy.
Import Re ReFacts CharFacts.

Lemma some_of_neq {A} (o : option A) : o <> None -> exists x, o = Some x.
Proof. destruct o; [eauto | congruence]. Qed.

Lemma many_settles c w : forall pos s' g,
  all_chars (in_class c) w = true -> stops (in_class c) s' ->
  settles (Many c) pos w s' g g.
Proof.
  induction w as [|x w IH]; intros pos s' g Hw Hs k Hk; simpl in *.
  - rewrite Nat.add_0_r in *. destruct s' as [|y s']; simpl; [reflexivity|].
    simpl in Hs. now rewrite Hs.
  - apply andb_prop in Hw as [Hx Hw]. rewrite Hx.
    rewrite Nat.add_succ_r in *.
    pose proof (IH (S pos) s' g Hw Hs k Hk) as E. simpl in E. rewrite E.
    destruct (some_of_neq _ Hk) as [m Hm]. now rewrite Hm.
Qed.

Lemma many1_settles c w pos s' g :
  w <> "" -> all_chars (in_class c) w = true -> stops (in_class c) s' ->
  settles (Many1 c) pos w s' g g.
Proof.
  intros Hne Hw Hs k Hk. destruct w as [|x w]; [congruence|]. simpl in *.
  apply andb_prop in Hw as [Hx Hw]. rewrite Hx.
  rewrite Nat.add_succ_r in *.
  exact (many_settles c w (S pos) s' g Hw Hs k Hk).
Qed.

Lemma lit_eq l : forall pos s' g k,
  lit l pos (l ++ s') g k = k (pos + String.length l) s' g.
Proof.
  induction l as [|a l IH]; intros pos s' g k; simpl.
  - now rewrite Nat.add_0_r.
  - rewrite Ascii.eqb_refl, IH. now rewrite Nat.add_succ_r.
Qed.

Lemma lit_settles l pos s' g : settles (Lit l) pos l s' g g.
Proof. intros k _. simpl. apply lit_eq. Qed.

Lemma chr_settles a pos s' g : settles (Chr a) pos (String a "") s' g g.
Proof. intros k _. simpl. rewrite Ascii.eqb_refl. now rewrite Nat.add_1_r. Qed.

Lemma seq_settles r1 r2 pos w1 w2 s' g g1 g2 :
  settles r1 pos w1 (w2 ++ s') g g1 ->
  settles r2 (pos + String.length w1) w2 s' g1 g2 ->
  settles (Seq r1 r2) pos (w1 ++ w2) s' g g2.
Proof.
  intros H1 H2 k Hk. simpl. rewrite append_assoc.
  rewrite length_append, Nat.add_assoc in *.
  rewrite H1; rewrite H2; auto.
Qed.

Lemma group_settles n r pos w s' g g' :
  settles r pos w s' g g' ->
  settles (Group n r) pos w s' g (set_group n w g').
Proof.
  intros H k Hk. simpl. rewrite H.
  - replace (pos + String.length w - pos) with (String.length w) by lia.
    now rewrite substring_whole_prefix.
  - replace (pos + String.length w - pos) with (String.length w) by lia.
    now rewrite substring_whole_prefix.
Qed.

Lemma alt_left_settles r1 r2 pos w s' g g' :
  settles r1 pos w s' g g' -> settles (Alt r1 r2) pos w s' g g'.
Proof.
  intros H k Hk. simpl. rewrite (H k Hk).
  destruct (some_of_neq _ Hk) as [m Hm]. now rewrite Hm.
Qed.

Lemma alt_right_settles r1 r2 pos w s' g g' :
  (forall k, exec r1 pos (w ++ s') g k = None) ->
  settles r2 pos w s' g g' -> settles (Alt r1 r2) pos w s' g g'.
Proof. intros F H k Hk. simpl. rewrite F. now apply H. Qed.

Lemma opt_some_settles r pos w s' g g' :
  settles r pos w s' g g' -> settles (Opt r) pos w s' g g'.
Proof.
  intros H k Hk. simpl. rewrite (H k Hk).
  destruct (some_of_neq _ Hk) as [m Hm]. now rewrite Hm.
Qed.

Lemma opt_none_settles r pos s' g :
  (forall k, exec r pos s' g k = None) -> settles (Opt r) pos "" s' g g.
Proof. intros F k Hk. simpl. rewrite F. now rewrite Nat.add_0_r. Qed.

Lemma settles_re_match r w g' :
  settles r 0 w "" no_groups g' -> re_match r w = Some g'.
Proof.
  intros H. unfold re_match. rewrite <- (append_nil_r w) at 1.
  now rewrite H.
Qed.

End Greedy.

(* ================================================================== *)
(** * The add pattern on the tokens of the grammar *)
(* ================================================================== *)

Module TokenFacts.
Import Re ReFacts CharFacts Patterns Greedy PortFacts AddFacts.

Lemma word_not_bang c : Chars.is_word c = true -> Ascii.eqb "!"%char c = false.
Proof. destruct c as [[] [] [] [] [] [] [] []]; vm_compute; congruence. Qed.

(** On a whole token of the grammar the matcher settles on the token:
    [!], the port token, the protocol. *)
Lemma token_settles port proto denied :
  port <> "" -> all_chars Chars.is_word port = true -> valid_protocol proto ->
  exists m,
    re_match token_re (bang_of denied ++ port ++ suffix_of proto) = Some m
    /\ token_port m = mkPort port (negb denied) proto.
Proof.
  intros Hne Hw V.
  assert (exists g1, settles (Opt (Group 1 (Chr "!"%char))) 0 (bang_of denied)
                       ((port ++ suffix_of proto) ++ "") no_groups g1
                     /\ g1 1 = (if denied then Some "!" else None)
                     /\ g1 2 = None /\ g1 3 = None) as (g1 & S1 & G11 & G12 & G13).
  { destruct denied; simpl bang_of.
    - eexists. split; [eapply opt_some_settles, group_settles, chr_settles|].
      repeat split.
    - exists no_groups. split; [|repeat split].
      apply opt_none_settles. intros k. destruct port as [|c port]; [congruence|].
      simpl in Hw. apply andb_prop in Hw as [Hc _].
      cbn [exec append]. now rewrite (word_not_bang c Hc). }
  assert (exists g3,
            settles (Opt (Chr "/"%char >> Group 3 (Alt (Lit "tcp") (Lit "udp"))))
              (0 + String.length (bang_of denied) + String.length port)
              (suffix_of proto) "" (set_group 2 port g1) g3
            /\ g3 1 = g1 1 /\ g3 2 = Some port
            /\ or_else (g3 3) "any" = proto) as (g3 & S3 & G31 & G32 & G33).
  { destruct V as [-> | [-> | ->]].
    - eexists. split; [apply opt_none_settles; intros k; reflexivity|].
      unfold set_group; simpl. rewrite G13. repeat split.
    - change (suffix_of "tcp") with (String "/"%char "" ++ "tcp").
      eexists. split.
      + eapply opt_some_settles, seq_settles; [apply chr_settles|].
        eapply group_settles, alt_left_settles, lit_settles.
      + repeat split.
    - change (suffix_of "udp") with (String "/"%char "" ++ "udp").
      eexists. split.
      + eapply opt_some_settles, seq_settles; [apply chr_settles|].
        eapply group_settles, alt_right_settles; [intros k; reflexivity|].
        apply lit_settles.
      + repeat split. }
  exists g3. split.
  - apply settles_re_match. unfold token_re.
    eapply seq_settles; [exact S1|].
    eapply seq_settles; [|exact S3].
    eapply group_settles, many1_settles; [exact Hne | exact Hw |].
    destruct V as [-> | [-> | ->]]; simpl; auto.
  - unfold token_port. rewrite G32, G31, G11, G33. simpl.
    destruct denied; reflexivity.
Qed.

(** The pattern accepts a token exactly when it starts as one. *)
Lemma token_accepted_iff tok :
  re_match token_re tok <> None <-> starts_token tok = true.
Proof.
  split.
  - intros H. destruct (re_match token_re tok) as [m|] eqn:E; [|congruence].
    destruct (token_describes tok m E) as (rest & Et & Hne & Hw & _).
    destruct (port_num (token_port m)) as [|c pn]; [congruence|].
    simpl in Hw. apply andb_prop in Hw as [Hc _].
    rewrite Et. destruct (allowed (token_port m)); simpl; rewrite Hc; reflexivity.
  - intros H. destruct tok as [|c rest]; [discriminate|]. simpl in H.
    destruct (Chars.is_word c) eqn:Hc.
    + apply (re_match_complete token_re ("" ++ String c "" ++ "") rest
               no_groups (set_group 2 (String c "") no_groups)).
      unfold token_re. eapply MSeq; [apply MOptNone|].
      eapply MSeq; [|apply MOptNone].
      apply MGroup, MMany1; [discriminate | simpl; now rewrite Hc].
    + simpl in H. apply andb_prop in H as [Hb Hd].
      apply Ascii.eqb_eq in Hb. subst c.
      destruct rest as [|d rest]; [discriminate|].
      apply (re_match_complete token_re
               (String "!"%char "" ++ String d "" ++ "") rest no_groups
               (set_group 2 (String d "")
                  (set_group 1 (String "!"%char "") no_groups))).
      unfold token_re. eapply MSeq; [apply MOptSome, MGroup, MChr|].
      eapply MSeq; [|apply MOptNone].
      apply MGroup, MMany1; [discriminate | simpl; now rewrite Hd].
Qed.

(** X1. A token is answered with the [Invalid port] popup, the
    collection left as it is and no command run, exactly when it does not
    start with a word character or with [!] and a word character. *)
Theorem add_port_invalid_iff tok lst log :
  starts_token tok = false
  <-> add_port tok lst log
      = Ok lst (log ++ [Popup None ("Invalid port: " ++ tok)])%list.
Proof.
  split.
  - intros H. unfold add_port.
    destruct (re_match token_re tok) as [m|] eqn:E; [|reflexivity].
    assert (A : starts_token tok = true) by (apply token_accepted_iff; congruence).
    congruence.
  - intros H. destruct (starts_token tok) eqn:S; [|reflexivity]. exfalso.
    apply token_accepted_iff in S.
    destruct (re_match token_re tok) as [m|] eqn:E; [|congruence].
    destruct (add_port_accepted tok m lst log E) as [Hdup Hnew].
    destruct (in_dec string_dec (port_num (token_port m)) (map port_num lst))
      as [I|I].
    + rewrite (Hdup I) in H. inv H. apply app_inv_head in H1. inv H1.
    + destruct (Hnew I) as (spec & _ & E'). rewrite E' in H. inv H.
      apply (f_equal (@List.length _)) in H1. rewrite length_app in H1.
      simpl in H1. lia.
Qed.

(** X2. A whole token of the grammar, [!] or not, a port token of word
    characters, [/tcp], [/udp] or nothing, whose port token is new to the
    collection, appends exactly the rule it spells (denied with [!],
    protocol [any] without a suffix) after running the one command for it. *)
Theorem add_port_grammar port proto denied lst log :
  port <> "" -> all_chars Chars.is_word port = true -> valid_protocol proto ->
  ~ In port (map port_num lst) ->
  add_port (bang_of denied ++ port ++ suffix_of proto) lst log
  = Ok (lst ++ [mkPort port (negb denied) proto])%list
       (log ++ [mutation (negb denied) (port ++ suffix_of proto)])%list.
Proof.
  intros Hne Hw V Hnew.
  destruct (token_settles port proto denied Hne Hw V) as (m & Em & Ep).
  destruct (add_port_accepted _ m lst log Em) as [_ H].
  rewrite Ep in H. simpl in H. destruct (H Hnew) as (spec & Es & ->).
  rewrite (str_port_valid (mkPort port (negb denied) proto) log V) in Es.
  simpl in Es. inv Es. reflexivity.
Qed.

Lemma add_port_grammar_witness :
  add_port "!8080/udp" [mkPort "22" true "any"] []
  = Ok [mkPort "22" true "any"; mkPort "8080" false "udp"]
       [Run ["sudo"; "ufw"; "deny"; "8080/udp"]].
Proof.
  apply (add_port_grammar "8080" "udp" true [mkPort "22" true "any"] []).
  - discriminate.
  - reflexivity.
  - right; right; reflexivity.
  - simpl. intros [H|[]]. discriminate.
Defined.

End TokenFacts.

(* ================================================================== *)
(** * Rendering and reading back; delete after toggle *)
(* ================================================================== *)

Module RenderFacts.
Import Re ReFacts CharFacts Patterns Greedy PortFacts AddFacts TokenFacts.

Lemma plain_valid p : plain_port p -> valid_port p.
Proof. intros (_ & _ & V). exact V. Qed.


(** X3. What [str_port] renders for a rule with a port token of word
    characters is read back by the add pattern as the same port token and
    protocol: allowed as it stands, denied behind a [!]. *)
Theorem render_then_parse p denied log :
  plain_port p ->
  exists spec m,
    str_port p log = Ok spec log
    /\ re_match token_re (bang_of denied ++ spec) = Some m
    /\ token_port m = mkPort (port_num p) (negb denied) (protocol p).
Proof.
  intros (Hne & Hw & V).
  destruct (token_settles (port_num p) (protocol p) denied Hne Hw V)
    as (m & Em & Ep).
  exists (port_num p ++ suffix_of (protocol p)), m.
  split; [now apply str_port_valid | split; assumption].
Qed.

Lemma render_then_parse_witness :
  exists spec m,
    str_port (mkPort "443" true "tcp") [] = Ok spec []
    /\ re_match token_re (bang_of true ++ spec) = Some m
    /\ token_port m = mkPort "443" false "tcp".
Proof.
  apply (render_then_parse (mkPort "443" true "tcp") true []).
  repeat split; [discriminate | right; left; reflexivity].
Defined.



(** X5. [delete] after [toggle] removes the rule the tool now has: the
    delete command names the flag the toggle has just set. *)
Theorem toggle_then_delete p log :
  valid_protocol (protocol p) ->
  bind (toggle p) delete log
  = Ok tt (log ++ [mutation (negb (allowed p)) (rendered p);
                   deletion (set_allowed (negb (allowed p)) p)])%list.
Proof.
  intros V. unfold bind. rewrite (toggle_valid p log V).
  unfold delete, bind. rewrite str_port_set_allowed.
  rewrite (str_port_valid p _ V). unfold subprocess_run, emit.
  rewrite <- app_assoc. reflexivity.
Qed.

Lemma toggle_then_delete_witness :
  bind (toggle (mkPort "80" true "tcp")) delete []
  = Ok tt [Run ["sudo"; "ufw"; "deny"; "80/tcp"];
           Run ["sudo"; "ufw"; "delete"; "deny"; "80/tcp"]].
Proof.
  apply (toggle_then_delete (mkPort "80" true "tcp") []).
  right; left; reflexivity.
Defined.

(** X6. A status line that reads as a rule is parsed into exactly that
    rule by the loop body of [get_ports], and nothing is logged. *)
Theorem port_of_line_exact line p log :
  describes line p -> port_of_line line log = Ok p log.
Proof.
  intros D. unfold port_of_line.
  destruct (re_match port_line_re line) as [m|] eqn:E.
  - unfold ret. f_equal.
    eapply describes_functional; [apply port_line_describes; exact E | exact D].
  - exfalso. exact (describes_matches line p D E).
Qed.

Lemma port_of_line_exact_witness :
  port_of_line "[12] 8080/udp   DENY OUT  Anywhere" []
  = Ok (mkPort "8080" false "udp") [].
Proof.
  apply (port_of_line_exact _ (mkPort "8080" false "udp") []).
  exists "", "12", " ", "   ", " OUT  Anywhere".
  repeat split; try discriminate. right; right; reflexivity.
Defined.

End RenderFacts.

(* ================================================================== *)
(** * main: what a line of tokens does to the collection *)
(* ================================================================== *)

Module AddAllFacts.
Import Re ReFacts Patterns PortFacts AddFacts.

(** One token: a popup and nothing appended, or one new rule and its
    command. *)
Lemma add_port_outcome tok lst log :
  exists new ev,
    add_port tok lst log = Ok (lst ++ new)%list (log ++ [ev])%list
    /\ ((new = [] /\ is_run ev = false)
        \/ exists p, new = [p] /\ plain_port p /\ ev = command_of p
                     /\ ~ In (port_num p) (map port_num lst)).
Proof.
  destruct (re_match token_re tok) as [m|] eqn:E.
  - destruct (add_port_accepted tok m lst log E) as [Hdup Hnew].
    destruct (token_describes tok m E) as (_ & _ & Hne & Hw & V).
    destruct (in_dec string_dec (port_num (token_port m)) (map port_num lst))
      as [I|I].
    + exists [], (Popup None ("Port " ++ port_num (token_port m) ++ " already exists")).
      rewrite app_nil_r. split; [exact (Hdup I) | left; split; reflexivity].
    + destruct (Hnew I) as (spec & Es & Ea).
      rewrite (str_port_valid _ log V) in Es. inv Es.
      exists [token_port m], (command_of (token_port m)).
      split; [exact Ea | right].
      exists (token_port m). repeat split; assumption.
  - exists [], (Popup None ("Invalid port: " ++ tok)). rewrite app_nil_r.
    split; [|left; split; reflexivity].
    unfold add_port. rewrite E. reflexivity.
Qed.

Lemma add_ports_outcome toks : forall lst log,
  exists new evs,
    add_ports toks lst log = Ok (lst ++ new)%list (log ++ evs)%list
    /\ List.length evs = List.length toks
    /\ commands evs = map command_of new
    /\ Forall plain_port new
    /\ NoDup (map port_num new)
    /\ (forall p, In p new -> ~ In (port_num p) (map port_num lst)).
Proof.
  induction toks as [|tok toks IH]; intros lst log.
  - exists [], []. simpl. unfold ret. rewrite !app_nil_r.
    repeat split; auto; constructor.
  - destruct (add_port_outcome tok lst log) as (n1 & ev & E1 & C1).
    destruct (IH (lst ++ n1)%list (log ++ [ev])%list)
      as (n2 & evs & E2 & L2 & R2 & P2 & D2 & F2).
    exists (n1 ++ n2)%list, (ev :: evs).
    simpl add_ports. unfold bind. rewrite E1, E2.
    rewrite <- !app_assoc. simpl.
    split; [reflexivity|]. split; [now rewrite L2|].
    destruct C1 as [[-> Hr] | (p & -> & Pp & -> & Hp)].
    + unfold commands in *. simpl. rewrite Hr. rewrite app_nil_r in F2.
      repeat split; auto.
    + unfold commands in *. simpl. rewrite R2.
      assert (Hn2 : ~ In (port_num p) (map port_num n2)).
      { intros I. apply in_map_iff in I as (q & Eq & Iq).
        apply (F2 q Iq). rewrite map_app, in_app_iff. right. simpl. auto. }
      repeat split; auto.
      * constructor; assumption.
      * intros q [<- | Iq]; [exact Hp|].
        intros I. apply (F2 q Iq). rewrite map_app, in_app_iff. now left.
Qed.


(** X8. Every token is answered by exactly one event, a popup or a
    command, and the commands run are the allow or deny of each appended
    rule, one each, in the order the rules are appended. *)
Theorem add_ports_commands toks lst log :
  exists new evs,
    add_ports toks lst log = Ok (lst ++ new)%list (log ++ evs)%list
    /\ List.length evs = List.length toks
    /\ commands evs = map command_of new
    /\ Forall plain_port new.
Proof.
  destruct (add_ports_outcome toks lst log) as (new & evs & E & L & R & P & _).
  exists new, evs. auto.
Qed.

End AddAllFacts.

(* ================================================================== *)
(** * main: what each key does *)
(* ================================================================== *)

Module KeyFacts.
Import PortFacts SessionFacts.
Local Open Scope Z_scope.

Lemma index_of_nonneg {A} (l : list A) i :
  0 <= i < Z.of_nat (List.length l) -> Py.index_of l i = Some (Z.to_nat i).
Proof.
  intros H. unfold Py.index_of.
  destruct (Z.leb_spec 0 i); destruct (Z.ltb_spec i (Z.of_nat (List.length l)));
    simpl; try lia. reflexivity.
Qed.

Lemma nth_error_in_range {A} (l : list A) i x :
  0 <= i -> nth_error l (Z.to_nat i) = Some x ->
  0 <= i < Z.of_nat (List.length l).
Proof.
  intros H0 H. assert (Z.to_nat i < List.length l)%nat
    by (apply nth_error_Some; congruence). lia.
Qed.

Lemma nth_error_replace_at {A} (y : A) l : forall n j,
  (n < List.length l)%nat ->
  nth_error (Py.replace_at n y l) j
  = if Nat.eqb j n then Some y else nth_error l j.
Proof.
  induction l as [|x l IH]; intros [|n] [|j] H; simpl in *; try lia; auto.
  apply IH. lia.
Qed.

Lemma remove_at_split {A} (l : list A) : forall n,
  Py.remove_at n l = (firstn n l ++ skipn (S n) l)%list.
Proof.
  induction l as [|x l IH]; intros [|n]; simpl; auto. now rewrite IH.
Qed.

(** X9. With the cursor on a row, the toggle key runs the one command
    that flips the selected rule and flips its flag; every other rule and
    the cursor stay as they are. *)
Theorem toggle_key_flips_selected l i p typed log :
  0 <= i -> nth_error l (Z.to_nat i) = Some p ->
  valid_protocol (protocol p) ->
  exists l',
    step Key.space typed (mkSession l i) log
    = Ok (Next, mkSession l' i)
         (log ++ [mutation (negb (allowed p)) (rendered p)])%list
    /\ List.length l' = List.length l
    /\ nth_error l' (Z.to_nat i) = Some (set_allowed (negb (allowed p)) p)
    /\ forall j, j <> Z.to_nat i -> nth_error l' j = nth_error l j.
Proof.
  intros H0 Hp V. pose proof (nth_error_in_range l i p H0 Hp) as Hi.
  assert (Hn : (Z.to_nat i < List.length l)%nat) by lia.
  exists (Py.replace_at (Z.to_nat i) (set_allowed (negb (allowed p)) p) l).
  split; [|split; [apply replace_at_length | split]].
  - unfold step. cbn [port_lst current_index].
    change (Key.space =? Key.q) with false.
    change (Key.space =? Key.KEY_UP) with false.
    change (Key.space =? Key.KEY_DOWN) with false.
    change (Key.space =? Key.space) with true. cbn [andb].
    destruct l as [|x l]; [simpl in Hn; lia|].
    unfold bind, toggle_at. rewrite (index_of_nonneg _ _ Hi), Hp.
    unfold bind. rewrite (toggle_valid p log V). reflexivity.
  - rewrite nth_error_replace_at by exact Hn. now rewrite Nat.eqb_refl.
  - intros j Hj. rewrite nth_error_replace_at by exact Hn.
    destruct (Nat.eqb_spec j (Z.to_nat i)); [contradiction | reflexivity].
Qed.

Lemma toggle_key_flips_selected_witness :
  exists l',
    step Key.space ""
      (mkSession [mkPort "22" true "any"; mkPort "80" false "tcp"] 1) []
    = Ok (Next, mkSession l' 1)
         ([] ++ [mutation true "80/tcp"])%list
    /\ List.length l' = 2%nat
    /\ nth_error l' 1 = Some (mkPort "80" true "tcp")
    /\ forall j, j <> 1%nat ->
         nth_error l' j
         = nth_error [mkPort "22" true "any"; mkPort "80" false "tcp"] j.
Proof.
  apply (toggle_key_flips_selected
           [mkPort "22" true "any"; mkPort "80" false "tcp"] 1
           (mkPort "80" false "tcp") "" []).
  - lia.
  - reflexivity.
  - right; left; reflexivity.
Defined.

(** X10. With the cursor on a row, the delete key runs the delete
    command of the selected rule, by its flag, and takes that rule out;
    the rules before and after it keep their order.  The cursor stays
    where it is, on the rule that followed, unless the last row was
    deleted: then it moves up by one (to -1 when the list is now empty). *)
Theorem delete_key_removes_selected l i p typed log :
  0 <= i -> nth_error l (Z.to_nat i) = Some p ->
  valid_protocol (protocol p) ->
  step Key.d typed (mkSession l i) log
  = Ok (Next,
        mkSession (firstn (Z.to_nat i) l ++ skipn (S (Z.to_nat i)) l)%list
                  (if i =? Z.of_nat (List.length l) - 1 then i - 1 else i))
       (log ++ [deletion p])%list.
Proof.
  intros H0 Hp V. pose proof (nth_error_in_range l i p H0 Hp) as Hi.
  assert (Hn : (Z.to_nat i < List.length l)%nat) by lia.
  unfold step. cbn [port_lst current_index].
  change (Key.d =? Key.q) with false.
  change (Key.d =? Key.KEY_UP) with false.
  change (Key.d =? Key.KEY_DOWN) with false.
  change (Key.d =? Key.space) with false.
  change (Key.d =? Key.a) with false.
  change (Key.d =? Key.d) with true. cbn [andb].
  unfold bind, getitem, pop. rewrite (index_of_nonneg _ _ Hi), Hp.
  unfold ret, delete, bind. rewrite (str_port_valid p log V).
  unfold subprocess_run, emit. rewrite remove_at_split.
  f_equal. f_equal. f_equal.
  rewrite <- remove_at_split, (remove_at_length l _ Hn).
  destruct (Z.geb_spec i (Z.of_nat (List.length l - 1)));
    destruct (Z.eqb_spec i (Z.of_nat (List.length l) - 1)); lia.
Qed.

Lemma delete_key_removes_selected_witness :
  step Key.d ""
    (mkSession [mkPort "22" true "any"; mkPort "80" false "tcp"] 1) []
  = Ok (Next, mkSession [mkPort "22" true "any"] 0)
       [Run ["sudo"; "ufw"; "delete"; "deny"; "80/tcp"]].
Proof.
  apply (delete_key_removes_selected
           [mkPort "22" true "any"; mkPort "80" false "tcp"] 1
           (mkPort "80" false "tcp") "" []).
  - lia.
  - reflexivity.
  - right; left; reflexivity.
Defined.

(** X11. With the cursor on a row, the up and down keys move it by one
    and stop at the first and at the last row; they leave the collection
    alone and log nothing. *)
Theorem arrow_keys_move_within l i typed log :
  0 <= i < Z.of_nat (List.length l) ->
  step Key.KEY_UP typed (mkSession l i) log
  = Ok (Next, mkSession l (Z.max 0 (i - 1))) log
  /\ step Key.KEY_DOWN typed (mkSession l i) log
     = Ok (Next, mkSession l (Z.min (Z.of_nat (List.length l) - 1) (i + 1))) log.
Proof.
  intros Hi. unfold step. cbn [port_lst current_index].
  change (Key.KEY_UP =? Key.q) with false.
  change (Key.KEY_UP =? Key.KEY_UP) with true.
  change (Key.KEY_UP =? Key.KEY_DOWN) with false.
  change (Key.KEY_UP =? Key.space) with false.
  change (Key.KEY_UP =? Key.a) with false.
  change (Key.KEY_UP =? Key.d) with false.
  change (Key.KEY_UP =? Key.h) with false.
  change (Key.KEY_DOWN =? Key.q) with false.
  change (Key.KEY_DOWN =? Key.KEY_UP) with false.
  change (Key.KEY_DOWN =? Key.KEY_DOWN) with true.
  change (Key.KEY_DOWN =? Key.space) with false.
  change (Key.KEY_DOWN =? Key.a) with false.
  change (Key.KEY_DOWN =? Key.d) with false.
  change (Key.KEY_DOWN =? Key.h) with false.
  cbn [andb]. unfold ret. split.
  - destruct (Z.gtb_spec i 0).
    + do 3 f_equal. lia.
    + do 3 f_equal. lia.
  - destruct (Z.ltb_spec i (Z.of_nat (List.length l) - 1)).
    + do 3 f_equal. lia.
    + do 3 f_equal. lia.
Qed.

Lemma arrow_keys_move_within_witness :
  step Key.KEY_UP "" (mkSession [mkPort "22" true "any"] 0) []
  = Ok (Next, mkSession [mkPort "22" true "any"] 0) []
  /\ step Key.KEY_DOWN "" (mkSession [mkPort "22" true "any"] 0) []
     = Ok (Next, mkSession [mkPort "22" true "any"] 0) [].
Proof.
  apply (arrow_keys_move_within [mkPort "22" true "any"] 0 "" []).
  simpl. lia.
Defined.

(** X12. Only the toggle, add and delete keys reach the tool or the
    collection: any other key returns with the same rules and without a
    command run. *)
Theorem other_keys_leave_rules key typed s log :
  key <> Key.space -> key <> Key.a -> key <> Key.d ->
  exists c i' evs,
    step key typed s log = Ok (c, mkSession (port_lst s) i') (log ++ evs)%list
    /\ commands evs = [].
Proof.
  intros Hs Ha Hd. destruct s as [l i]. unfold step. cbn [port_lst current_index].
  key_case key Key.q.
  { exists Break, i, []. rewrite app_nil_r. split; reflexivity. }
  destruct ((key =? Key.KEY_UP) && (i >? 0)).
  { exists Next, (i - 1), []. rewrite app_nil_r. split; reflexivity. }
  destruct ((key =? Key.KEY_DOWN) && (i <? Z.of_nat (List.length l) - 1)).
  { exists Next, (i + 1), []. rewrite app_nil_r. split; reflexivity. }
  key_case key Key.space; [congruence|].
  key_case key Key.a; [congruence|].
  key_case key Key.d; [congruence|].
  key_case key Key.h.
  - exists Next, i, [Popup (Some "Help") help_message]. split; reflexivity.
  - exists Next, i, []. rewrite app_nil_r. split; reflexivity.
Qed.

Lemma other_keys_leave_rules_witness :
  exists c i' evs,
    step Key.h "" (mkSession [mkPort "22" true "any"] 0) []
    = Ok (c, mkSession [mkPort "22" true "any"] i') ([] ++ evs)%list
    /\ commands evs = [].
Proof.
  apply (other_keys_leave_rules Key.h "" (mkSession [mkPort "22" true "any"] 0) []);
    discriminate.
Defined.

(** The loop over two runs of keys is the loop over the first and, when
    that has not ended, the loop over the second from where it stands. *)
Lemma loop_app xs ys : forall s log,
  loop (xs ++ ys) s log
  = match loop xs s log with
    | Ok (Next, s') log' => loop ys s' log'
    | r => r
    end.
Proof.
  induction xs as [|[key typed] xs IH]; intros s log; simpl.
  - reflexivity.
  - unfold bind. destruct (step key typed s log) as [[[|] s'] log'|e log'].
    + apply IH.
    + reflexivity.
    + reflexivity.
Qed.

(** X13. Keys after the quit key are not read: the session ends in the
    state and with the log it had when the key was pressed. *)
Theorem loop_ends_at_quit xs typed ys s log s' log' :
  loop xs s log = Ok (Next, s') log' ->
  loop (xs ++ (Key.q, typed) :: ys) s log = Ok (Break, s') log'.
Proof.
  intros H. rewrite loop_app, H. reflexivity.
Qed.

Lemma loop_ends_at_quit_witness :
  loop ([(Key.KEY_DOWN, "")] ++ (Key.q, "") :: [(Key.d, "")])
    (mkSession [mkPort "22" true "any"; mkPort "80" true "any"] 0) []
  = Ok (Break, mkSession [mkPort "22" true "any"; mkPort "80" true "any"] 1) [].
Proof.
  apply (loop_ends_at_quit [(Key.KEY_DOWN, "")] "" [(Key.d, "")]).
  reflexivity.
Defined.

End KeyFacts.

(* ================================================================== *)
(** * main: the rows on the screen *)
(* ================================================================== *)

Module DrawFacts.
Import PortFacts SessionFacts KeyFacts.
Local Open Scope Z_scope.

(** Whatever the cursor and the height, the scroll window lies in the
    list and is no taller than the height. *)
Lemma viewport_in_list ci len vh :
  0 <= len ->
  0 <= fst (viewport ci len vh)
  /\ snd (viewport ci len vh) <= len
  /\ snd (viewport ci len vh) - fst (viewport ci len vh) <= vh.
Proof.
  intros H. unfold viewport. simpl.
  destruct (Z.geb_spec ci vh); lia.
Qed.

Lemma draw_rows_spec l ci : forall n start v log,
  Forall valid_port l ->
  ((0 < n)%nat ->
   0 <= start /\ start + Z.of_nat n <= Z.of_nat (List.length l)) ->
  exists cells,
    draw_rows l ci v (range_from start n) log = Ok cells log
    /\ List.length cells = n
    /\ forall k, (k < n)%nat -> nth_error cells k = row_cell l ci start v k.
Proof.
  induction n as [|n IH]; intros start v log V Hn.
  - exists []. repeat split. intros k Hk. lia.
  - assert (Hi : 0 <= start < Z.of_nat (List.length l)) by lia.
    destruct (nth_error l (Z.to_nat start)) as [p|] eqn:Ep;
      [|apply nth_error_None in Ep; lia].
    assert (Vp : valid_port p)
      by (eapply Forall_forall; [exact V | eapply nth_error_In; exact Ep]).
    destruct (IH (start + 1) (v + 1) log V) as (cells & E & L & R); try lia.
    exists (Addstr (v + 2) 0 (row_text p)
              (if start =? ci then A_REVERSE else A_NORMAL) :: cells).
    split; [|split].
    + simpl. unfold bind, getitem. rewrite (index_of_nonneg _ _ Hi), Ep.
      unfold ret. rewrite (str_port_valid p log Vp). rewrite E. reflexivity.
    + simpl. now rewrite L.
    + intros [|k] Hk; simpl.
      * unfold row_cell. simpl Z.of_nat. rewrite !Z.add_0_r, Ep. reflexivity.
      * rewrite R by lia. unfold row_cell.
        replace (start + 1 + Z.of_nat k) with (start + Z.of_nat (S k)) by lia.
        replace (v + 1 + Z.of_nat k + 2) with (v + Z.of_nat (S k) + 2) by lia.
        reflexivity.
Qed.

(** The screen of a list that is not empty. *)
Lemma draw_screen_spec max_y s log :
  Forall valid_port (port_lst s) -> port_lst s <> [] ->
  let start := fst (viewport (current_index s)
                      (Z.of_nat (List.length (port_lst s))) (max_y - 2)) in
  let stop := snd (viewport (current_index s)
                     (Z.of_nat (List.length (port_lst s))) (max_y - 2)) in
  exists cells,
    draw_screen max_y s log = Ok (Addstr 0 0 banner A_BOLD :: cells) log
    /\ List.length cells = Z.to_nat (stop - start)
    /\ forall k, (k < List.length cells)%nat ->
         nth_error cells k
         = row_cell (port_lst s) (current_index s) start 0 k.
Proof.
  intros V Hne start stop.
  destruct (viewport_in_list (current_index s)
              (Z.of_nat (List.length (port_lst s))) (max_y - 2))
    as (H0 & H1 & H2); [lia|]. fold start stop in H0, H1, H2.
  destruct (draw_rows_spec (port_lst s) (current_index s)
              (Z.to_nat (stop - start)) start 0 log V)
    as (cells & E & L & R); [lia|].
  exists cells. split; [|split; [exact L | now rewrite L]].
  unfold draw_screen. destruct (port_lst s) as [|x l] eqn:El; [congruence|].
  unfold start, stop in E.
  destruct (viewport _ _ _) as [a b]. simpl fst in E. simpl snd in E.
  unfold bind, range. rewrite E. reflexivity.
Qed.



(** X15. With the cursor on a row and a screen of three lines or more,
    the selected rule is among the rows drawn and its row is the one row
    in reverse video. *)
Theorem selected_row_highlighted max_y s log p :
  Forall valid_port (port_lst s) ->
  0 <= current_index s ->
  nth_error (port_lst s) (Z.to_nat (current_index s)) = Some p ->
  3 <= max_y ->
  exists cells start,
    draw_screen max_y s log = Ok (Addstr 0 0 banner A_BOLD :: cells) log
    /\ 0 <= start <= current_index s
    /\ nth_error cells (Z.to_nat (current_index s - start))
       = Some (Addstr (current_index s - start + 2) 0 (row_text p) A_REVERSE)
    /\ forall k c,
         nth_error cells k = Some c -> attr_of c = A_REVERSE ->
         k = Z.to_nat (current_index s - start).
Proof.
  intros V H0 Hp Hy.
  pose proof (nth_error_in_range _ _ _ H0 Hp) as Hi.
  assert (Hne : port_lst s <> []) by (destruct (port_lst s); [simpl in Hi; lia | discriminate]).
  destruct (draw_screen_spec max_y s log V Hne) as (cells & E & L & R).
  set (start := fst (viewport (current_index s)
                       (Z.of_nat (List.length (port_lst s))) (max_y - 2))) in *.
  set (stop := snd (viewport (current_index s)
                      (Z.of_nat (List.length (port_lst s))) (max_y - 2))) in *.
  assert (B : 0 <= start <= current_index s /\ current_index s < stop).
  { unfold start, stop, viewport. simpl.
    destruct (Z.geb_spec (current_index s) (max_y - 2)); lia. }
  exists cells, start. split; [exact E|]. split; [lia|]. split.
  - rewrite R by lia. unfold row_cell.
    replace (start + Z.of_nat (Z.to_nat (current_index s - start)))
      with (current_index s) by lia.
    rewrite Hp, Z.eqb_refl.
    replace (0 + Z.of_nat (Z.to_nat (current_index s - start)) + 2)
      with (current_index s - start + 2) by lia.
    reflexivity.
  - intros k c Hk Ha.
    assert (Hlt : (k < List.length cells)%nat) by (apply nth_error_Some; congruence).
    rewrite (R k Hlt) in Hk. unfold row_cell in Hk.
    destruct (nth_error (port_lst s) (Z.to_nat (start + Z.of_nat k)));
      [|discriminate].
    inv Hk. simpl in Ha.
    destruct (Z.eqb_spec (start + Z.of_nat k) (current_index s)); [lia | discriminate].
Qed.

Lemma selected_row_highlighted_witness :
  exists cells start,
    draw_screen 3 (mkSession [mkPort "22" true "any"; mkPort "80" false "tcp"] 1) []
    = Ok (Addstr 0 0 banner A_BOLD :: cells) []
    /\ 0 <= start <= 1
    /\ nth_error cells (Z.to_nat (1 - start))
       = Some (Addstr (1 - start + 2) 0 (row_text (mkPort "80" false "tcp")) A_REVERSE)
    /\ forall k c,
         nth_error cells k = Some c -> attr_of c = A_REVERSE ->
         k = Z.to_nat (1 - start).
Proof.
  apply (selected_row_highlighted 3
           (mkSession [mkPort "22" true "any"; mkPort "80" false "tcp"] 1) []
           (mkPort "80" false "tcp")).
  - constructor; [left; reflexivity|].
    constructor; [right; left; reflexivity | constructor].
  - simpl. lia.
  - reflexivity.
  - lia.
Defined.

(** X16. With the cursor below the first row, as -1 after the list was
    emptied, no row is drawn in reverse video, whatever is in the list. *)
Theorem cursor_off_rows_no_highlight max_y s log :
  Forall valid_port (port_lst s) -> port_lst s <> [] ->
  current_index s < 0 ->
  exists cells,
    draw_screen max_y s log = Ok (Addstr 0 0 banner A_BOLD :: cells) log
    /\ Forall (fun c => attr_of c = A_NORMAL) cells.
Proof.
  intros V Hne Hc.
  destruct (draw_screen_spec max_y s log V Hne) as (cells & E & L & R).
  destruct (viewport_in_list (current_index s)
              (Z.of_nat (List.length (port_lst s))) (max_y - 2))
    as (H0 & _); [lia|].
  exists cells. split; [exact E|].
  apply Forall_forall. intros c Hin.
  apply In_nth_error in Hin as [k Hk].
  assert (Hlt : (k < List.length cells)%nat) by (apply nth_error_Some; congruence).
  rewrite (R k Hlt) in Hk. unfold row_cell in Hk.
  set (start := fst (viewport (current_index s)
                       (Z.of_nat (List.length (port_lst s))) (max_y - 2))) in *.
  destruct (nth_error (port_lst s) (Z.to_nat (start + Z.of_nat k)));
    [|discriminate].
  inv Hk. cbn [attr_of].
  destruct (Z.eqb_spec (start + Z.of_nat k) (current_index s)); [lia | reflexivity].
Qed.

Lemma cursor_off_rows_no_highlight_witness :
  exists cells,
    draw_screen 24 (mkSession [mkPort "80" true "any"] (-1)) []
    = Ok (Addstr 0 0 banner A_BOLD :: cells) []
    /\ Forall (fun c => attr_of c = A_NORMAL) cells.
Proof.
  apply (cursor_off_rows_no_highlight 24 (mkSession [mkPort "80" true "any"] (-1)) []).
  - constructor; [left; reflexivity | constructor].
  - discriminate.
  - simpl. lia.
Defined.



End DrawFacts.

(* ================================================================== *)
(** * show_popup: the lines of the window *)
(* ================================================================== *)

Module PopupFacts.
Local Open Scope Z_scope.

Lemma popup_body_firstn limit width lines : forall y,
  popup_body limit width y lines
  = all_rows width y (firstn (Z.to_nat (limit - y)) lines).
Proof.
  induction lines as [|line lines IH]; intros y; simpl.
  - now rewrite firstn_nil.
  - destruct (Z.geb_spec y limit) as [G|G].
    + replace (Z.to_nat (limit - y)) with 0%nat by lia. reflexivity.
    + replace (Z.to_nat (limit - y)) with (S (Z.to_nat (limit - (y + 1)))) by lia.
      simpl. now rewrite IH.
Qed.

Lemma all_rows_nth width lines : forall y k line,
  nth_error lines k = Some line ->
  nth_error (all_rows width y lines) k
  = Some (Addstr (y + Z.of_nat k) 2 (slice_to width line) A_NORMAL).
Proof.
  induction lines as [|l lines IH]; intros y [|k] line H; simpl in *;
    try discriminate.
  - inv H. now rewrite Z.add_0_r.
  - rewrite (IH (y + 1) k line H). do 2 f_equal. lia.
Qed.

Lemma popup_lines_drawn_helper win_w message header padding :
  let lines := Py.split Chars.LF (Py.strip message) in
  let line_count := Z.of_nat (List.length lines) in
  let y := if truthy header then 3 else 1 in
  let win_h := line_count + (if truthy header then 3 else 2) + padding in
  exists head,
    popup_window win_w message header padding
    = (win_h,
       (head
        ++ all_rows (win_w - 4) y
             (firstn (Z.to_nat (line_count + padding
                                - (if truthy header then 2 else 1))) lines)
        ++ [Addstr (win_h - 1) 2 popup_footer A_NORMAL])%list)
    /\ List.length head = (if truthy header then 1%nat else 0%nat).
Proof.
  intros lines line_count y win_h. unfold popup_window.
  fold lines. fold line_count. fold win_h. fold y.
  rewrite popup_body_firstn. eexists. split.
  - f_equal. f_equal. f_equal. f_equal. f_equal.
    unfold win_h, y. destruct (truthy header); lia.
  - destruct (truthy header); reflexivity.
Qed.

(** X18. The message lines a popup draws are the first
    [line_count + padding - 1] of the stripped message, one fewer under
    a header: no more than that, and none when that is not positive. *)
Theorem popup_lines_drawn win_w message header padding :
  let lines := Py.split Chars.LF (Py.strip message) in
  let line_count := Z.of_nat (List.length lines) in
  let y := if truthy header then 3 else 1 in
  let win_h := line_count + (if truthy header then 3 else 2) + padding in
  exists head,
    popup_window win_w message header padding
    = (win_h,
       (head
        ++ all_rows (win_w - 4) y
             (firstn (Z.to_nat (line_count + padding
                                - (if truthy header then 2 else 1))) lines)
        ++ [Addstr (win_h - 1) 2 popup_footer A_NORMAL])%list)
    /\ List.length head = (if truthy header then 1%nat else 0%nat).
Proof. exact (popup_lines_drawn_helper win_w message header padding). Qed.

(** X19. With a padding of 2 or more, as in every call of the program,
    every line of the stripped message is drawn, line [k] on the row [k]
    below the first, cut to the width inside the border; all of them
    stand above the row of the footer, the last of the window. *)
Theorem popup_draws_every_line win_w message header padding :
  2 <= padding ->
  let lines := Py.split Chars.LF (Py.strip message) in
  let y := if truthy header then 3 else 1 in
  let win_h := fst (popup_window win_w message header padding) in
  let cells := snd (popup_window win_w message header padding) in
  In (Addstr (win_h - 1) 2 popup_footer A_NORMAL) cells
  /\ forall k line,
       nth_error lines k = Some line ->
       In (Addstr (y + Z.of_nat k) 2 (slice_to (win_w - 4) line) A_NORMAL) cells
       /\ y + Z.of_nat k < win_h - 1.
Proof.
  intros Hp lines y win_h cells.
  destruct (popup_lines_drawn_helper win_w message header padding) as (head & E & _).
  unfold cells, win_h. rewrite E. cbn [fst snd].
  fold lines in E |- *. fold y in E |- *.
  split.
  - rewrite !in_app_iff. right; right. now left.
  - intros k line Hk.
    assert (Hlt : (k < List.length lines)%nat) by (apply nth_error_Some; congruence).
    split.
    + rewrite !in_app_iff. right; left.
      rewrite firstn_all2 by (destruct (truthy header); lia).
      eapply nth_error_In. apply all_rows_nth. exact Hk.
    + unfold y. destruct (truthy header); lia.
Qed.

Lemma popup_draws_every_line_witness :
  let lines := Py.split Chars.LF (Py.strip help_message) in
  let win_h := fst (popup_window 48 help_message (Some "Help") 2) in
  let cells := snd (popup_window 48 help_message (Some "Help") 2) in
  In (Addstr (win_h - 1) 2 popup_footer A_NORMAL) cells
  /\ forall k line,
       nth_error lines k = Some line ->
       In (Addstr (3 + Z.of_nat k) 2 (slice_to (48 - 4) line) A_NORMAL) cells
       /\ 3 + Z.of_nat k < win_h - 1.
Proof.
  apply (popup_draws_every_line 48 help_message (Some "Help") 2). lia.
Defined.

(** X20. A popup no larger than the screen is placed inside it and in
    its middle: the margins above and below differ by one line at most,
    as do those left and right. *)
Theorem popup_origin_centred h w win_h win_w :
  0 <= win_h <= h -> 0 <= win_w <= w ->
  let (win_y, win_x) := popup_origin h w win_h win_w in
  0 <= win_y /\ win_y + win_h <= h
  /\ 0 <= (h - win_h - win_y) - win_y <= 1
  /\ 0 <= win_x /\ win_x + win_w <= w
  /\ 0 <= (w - win_w - win_x) - win_x <= 1.
Proof.
  intros Hh Hw. unfold popup_origin.
  pose proof (Z.div_mod (h - win_h) 2 ltac:(lia)) as Dh.
  pose proof (Z.mod_pos_bound (h - win_h) 2 ltac:(lia)) as Mh.
  pose proof (Z.div_mod (w - win_w) 2 ltac:(lia)) as Dw.
  pose proof (Z.mod_pos_bound (w - win_w) 2 ltac:(lia)) as Mw.
  lia.
Qed.

Lemma popup_origin_centred_witness :
  let (win_y, win_x) := popup_origin 24 80 9 48 in
  0 <= win_y /\ win_y + 9 <= 24
  /\ 0 <= (24 - 9 - win_y) - win_y <= 1
  /\ 0 <= win_x /\ win_x + 48 <= 80
  /\ 0 <= (80 - 48 - win_x) - win_x <= 1.
Proof.
  apply (popup_origin_centred 24 80 9 48); lia.
Defined.

End PopupFacts.

(* ================================================================== *)
(** * input_window: what the prompt returns *)
(* ================================================================== *)

Module InputFacts.
Import Re CharFacts.

Lemma lstrip_spaces a r :
  all_chars Chars.is_space a = true -> stops Chars.is_space r ->
  Py.lstrip (a ++ r) = r.
Proof.
  induction a as [|c a IH]; intros Ha Hr.
  - cbn [append]. destruct r as [|c r]; [reflexivity|].
    cbn [stops] in Hr. cbn [Py.lstrip]. now rewrite Hr.
  - cbn [all_chars] in Ha. apply andb_prop in Ha as [Hc Ha].
    cbn [append Py.lstrip]. rewrite Hc. now apply IH.
Qed.

Lemma rstrip_spaces b :
  all_chars Chars.is_space b = true -> Py.rstrip b = "".
Proof.
  induction b as [|c b IH]; intros H; [reflexivity|].
  cbn [all_chars] in H. apply andb_prop in H as [Hc Hb].
  cbn [Py.rstrip]. now rewrite (IH Hb), Hc.
Qed.

Lemma rstrip_keeps body : forall c b,
  Chars.is_space c = false -> all_chars Chars.is_space b = true ->
  Py.rstrip (body ++ String c b) = body ++ String c "".
Proof.
  induction body as [|x body IH]; intros c b Hc Hb; cbn [append Py.rstrip].
  - now rewrite (rstrip_spaces b Hb), Hc.
  - rewrite (IH c b Hc Hb). destruct body; reflexivity.
Qed.

Lemma rstrip_empty_iff s :
  Py.rstrip s = "" <-> all_chars Chars.is_space s = true.
Proof.
  split; [|apply rstrip_spaces].
  induction s as [|c s IH]; [reflexivity|]. cbn [Py.rstrip all_chars].
  destruct (Py.rstrip s) as [|x r] eqn:E.
  - cbn [String.eqb andb]. destruct (Chars.is_space c);
      [intros _; now apply IH | discriminate].
  - cbn [String.eqb andb]. discriminate.
Qed.

Lemma lstrip_stops s : stops Chars.is_space (Py.lstrip s).
Proof.
  induction s as [|c s IH]; [exact I|]. cbn [Py.lstrip].
  destruct (Chars.is_space c) eqn:E; [exact IH | exact E].
Qed.

Lemma lstrip_all_space s :
  stops Chars.is_space s -> all_chars Chars.is_space s = true -> s = "".
Proof.
  destruct s as [|c s]; [reflexivity|]. cbn [stops all_chars].
  intros -> H. discriminate.
Qed.

Lemma lstrip_empty_iff s :
  Py.lstrip s = "" <-> all_chars Chars.is_space s = true.
Proof.
  induction s as [|c s IH]; [cbn; tauto|]. cbn [Py.lstrip all_chars].
  destruct (Chars.is_space c); [exact IH|]. split; discriminate.
Qed.

Lemma strip_empty_iff s :
  Py.strip s = "" <-> all_chars Chars.is_space s = true.
Proof.
  unfold Py.strip. rewrite rstrip_empty_iff. split.
  - intros H. apply lstrip_empty_iff.
    apply lstrip_all_space; [apply lstrip_stops | exact H].
  - intros H. apply lstrip_empty_iff in H. now rewrite H.
Qed.

(** X21. The prompt returns what was entered without the whitespace
    around it: blanks before and after a text that starts and ends with
    other characters are dropped, and the text is returned as it is,
    blanks inside it included; the prompt is the one event. *)
Theorem input_window_strips prompt a body c b core log :
  all_chars Chars.is_space a = true ->
  all_chars Chars.is_space b = true ->
  core = body ++ String c "" ->
  stops Chars.is_space core ->
  Chars.is_space c = false ->
  input_window prompt (a ++ core ++ b) log
  = Ok core (log ++ [Prompt prompt])%list.
Proof.
  intros Ha Hb -> Hs Hc. unfold input_window, bind, emit, ret, Py.strip.
  rewrite lstrip_spaces.
  - rewrite append_assoc. cbn [append]. now rewrite rstrip_keeps.
  - exact Ha.
  - destruct body; exact Hs.
Qed.

Lemma input_window_strips_witness :
  input_window add_prompt ("  " ++ "22  !80/tcp" ++ " ") []
  = Ok "22  !80/tcp" ([] ++ [Prompt add_prompt])%list.
Proof.
  apply (input_window_strips add_prompt "  " "22  !80/tc" "p"%char " ");
    reflexivity.
Defined.

(** X22. The prompt returns the empty string exactly when what was
    entered is made of whitespace only, the empty entry included. *)
Theorem input_window_empty_iff prompt typed log :
  input_window prompt typed log = Ok "" (log ++ [Prompt prompt])%list
  <-> all_chars Chars.is_space typed = true.
Proof.
  unfold input_window, bind, emit, ret. rewrite <- strip_empty_iff. split.
  - intros H. now inv H.
  - intros ->. reflexivity.
Qed.

End InputFacts.

(* ================================================================== *)
(** * get_ports: what a successful parse returns *)
(* ================================================================== *)

Module LoadFacts.
Import Re ReFacts Patterns SortFacts ParserFacts SessionFacts.

Lemma ports_of_lines_plain lines : forall acc log lst log',
  ports_of_lines lines acc log = Ok lst log' ->
  Forall plain_port acc ->
  Forall plain_port lst /\ log' = log
  /\ List.length lst = (List.length acc + List.length lines)%nat.
Proof.
  induction lines as [|line lines IH]; intros acc log lst log' H P; simpl in H.
  - inv H. repeat split; auto.
  - unfold bind, port_of_line in H.
    destruct (re_match port_line_re line) as [m|] eqn:E; [|discriminate].
    unfold ret in H. apply IH in H as (P' & -> & L).
    + repeat split; auto. rewrite L, length_app. simpl. lia.
    + apply Forall_app. split; [exact P|]. constructor; [|constructor].
      apply port_line_describes in E
        as (? & ? & ? & ? & ? & _ & _ & _ & _ & _ & _ & Hn & Hw & V & _).
      repeat split; assumption.
Qed.

(** X23. Whenever [get_ports] returns, it has run the status command
    and nothing else, the rules number half the numbered lines, they are
    in ascending order of the port token, and each has a port token of
    word characters and one of the three protocols. *)
Theorem get_ports_returns stdout log lst log' :
  get_ports stdout log = Ok lst log' ->
  log' = (log ++ [status_command])%list
  /\ List.length (numbered_lines stdout) = 2 * List.length lst
  /\ StronglySorted port_le lst
  /\ Forall plain_port lst.
Proof.
  rewrite get_ports_eq. cbv zeta.
  destruct (Nat.eqb_spec (List.length (numbered_lines stdout) mod 2) 0) as [Ev|];
    [|discriminate].
  destruct (ports_of_lines _ _ _) as [l g|] eqn:E; [|discriminate].
  intros H. inv H.
  apply ports_of_lines_plain in E as (P & -> & L); [|constructor].
  split; [reflexivity|]. split; [|split].
  - rewrite sort_length, L. cbn [List.length Nat.add]. rewrite firstn_length_le.
    + pose proof (Nat.div_mod_eq (List.length (numbered_lines stdout)) 2). lia.
    + apply Nat.Div0.div_le_upper_bound. lia.
  - apply sort_sorted.
  - eapply Permutation_Forall; [apply sort_perm | exact P].
Qed.

Lemma get_ports_returns_witness :
  [status_command] = ([] ++ [status_command])%list
  /\ List.length (numbered_lines two_rules) = 2 * 2
  /\ StronglySorted port_le [mkPort "22" true "any"; mkPort "80" false "tcp"]
  /\ Forall plain_port [mkPort "22" true "any"; mkPort "80" false "tcp"].
Proof.
  apply (get_ports_returns two_rules []
           [mkPort "22" true "any"; mkPort "80" false "tcp"] [status_command]).
  reflexivity.
Defined.

Lemma unreadable_line p : ~ describes "[1]" p.
Proof.
  intros D. apply describes_matches in D. apply D. reflexivity.
Qed.

Lemma get_ports_invalid_line_witness :
  get_ports ("[1]" ++ nl ++ "[2]") []
  = Raise (ValueError ("Invalid line: " ++ "[1]")) ([] ++ [status_command])%list.
Proof.
  apply (get_ports_invalid_line ("[1]" ++ nl ++ "[2]") 1 [] "[1]" [] [] []).
  - reflexivity.
  - reflexivity.
  - constructor.
  - exact unreadable_line.
Defined.


Lemma step_keeps_cursor_on_row_witness :
  (0 <= current_index (mkSession [mkPort "22" true "any"] 0)
   < Z.of_nat (List.length (port_lst (mkSession [mkPort "22" true "any"] 0))))%Z.
Proof.
  apply (step_keeps_cursor_on_row Key.d ""
           (mkSession [mkPort "22" true "any"; mkPort "80" false "tcp"] 1) []
           Next (mkSession [mkPort "22" true "any"] 0)
           [Run ["sudo"; "ufw"; "delete"; "deny"; "80/tcp"]]).
  - repeat split; simpl; try lia.
    constructor; [left; reflexivity|].
    constructor; [right; left; reflexivity | constructor].
  - simpl. lia.
  - reflexivity.
  - discriminate.
Defined.

End LoadFacts.
